(** * AlarmNotifications: the alarm-aggregation core of AlarmServerConnector

    A shallow embedding of [src/alarmstatusentry.cpp] and
    [src/alarmserverconnector.cpp] (with the types of their headers):
    the status map of active alarms, the oldest-alarm timestamp, the
    watcher tick [checkStatusMap], the flash-light tick [operateFlashLight]
    and the preparation of desktop and e-mail notification batches.

    C++ exceptions are modelled by the result type [result]; an exception
    that escapes [CMSClient::onMessage] (declared [noexcept]) terminates
    the process, which the whole-system run [run] models by stopping. *)

From Stdlib Require Import ZArith String Ascii.
From stdpp Require Import base gmap strings list fin_maps.

Open Scope string_scope.

(* ------------------------------------------------------------------ *)
(** ** Exceptions *)

Inductive exn :=
| out_of_range  (* std::out_of_range, thrown by std::string::substr *)
| logic_error.  (* std::logic_error, thrown by the constructor *)

Inductive result (A : Type) :=
| Ok (a : A)
| Throw (e : exn).
Arguments Ok {A} a.
Arguments Throw {A} e.

Definition result_bind {A B} (m : result A) (k : A -> result B) : result B :=
  match m with
  | Ok a => k a
  | Throw e => Throw e
  end.

Declare Scope result_scope.
Notation "x <-- m ;; k" := (result_bind m (fun x => k))
  (at level 100, m at next level, right associativity) : result_scope.
Open Scope result_scope.

(* ------------------------------------------------------------------ *)
(** ** Machine types *)

(** [size_t] is 64-bit unsigned: subtraction wraps modulo 2^64. *)
Definition size_t_modulus : Z := 2 ^ 64.
Definition size_t_sub (a b : Z) : Z := (a - b) mod size_t_modulus.

(** [time_t] is [long int] (64-bit signed); [noAlarmActive] is
    [std::numeric_limits<long int>::min()]. *)
Definition noAlarmActive : Z := - 2 ^ 63.

(** [std::string::substr(pos, n)]: throws [std::out_of_range] if
    [pos > size()], otherwise returns at most [n] characters from [pos]. *)
Definition substr (s : string) (pos n : Z) : result string :=
  if Z.ltb (Z.of_nat (String.length s)) pos then Throw out_of_range
  else Ok (String.substring (Z.to_nat pos) (Z.to_nat n) s).

(* ------------------------------------------------------------------ *)
(** ** AlarmStatusEntry (src/alarmstatusentry.cpp) *)

Record AlarmStatusEntry := mkAlarmStatusEntry {
  pvname : string;
  severity : string;
  status : string;
  triggertime : Z;
  desktopNotificationSent : bool;
  emailNotificationSent : bool
}.

(** The three-argument constructor; [now] is [std::time(nullptr)]. *)
Definition newAlarmStatusEntry (pv sev st : string) (now : Z) : AlarmStatusEntry :=
  mkAlarmStatusEntry pv sev st now false false.

(** [AlarmStatusEntry::update]. *)
Definition update (self newdata : AlarmStatusEntry) : AlarmStatusEntry :=
  if Z.ltb self.(triggertime) newdata.(triggertime)
  then mkAlarmStatusEntry self.(pvname) newdata.(severity) newdata.(status)
         self.(triggertime) self.(desktopNotificationSent)
         self.(emailNotificationSent)
  else self.

(** [AlarmStatusEntry::setDesktopNotificationSent]. *)
Definition setDesktopNotificationSent (self : AlarmStatusEntry) (b : bool)
  : AlarmStatusEntry :=
  mkAlarmStatusEntry self.(pvname) self.(severity) self.(status)
    self.(triggertime) b self.(emailNotificationSent).

(** [AlarmStatusEntry::setEmailNotificationSent]. *)
Definition setEmailNotificationSent (self : AlarmStatusEntry) (b : bool)
  : AlarmStatusEntry :=
  mkAlarmStatusEntry self.(pvname) self.(severity) self.(status)
    self.(triggertime) self.(desktopNotificationSent) b.

(* ------------------------------------------------------------------ *)
(** ** Severity classification *)

(** [AlarmServerConnector::checkSeverityString]. *)
Definition checkSeverityString (sev : string) : result bool :=
  if String.eqb sev "OK" then Ok true
  else
    suffix <-- substr sev (size_t_sub (Z.of_nat (String.length sev)) 4) 4 ;;
    Ok (String.eqb suffix "_ACK").

(** The classification as the spec words it ([IsCleared]): exactly "OK",
    or the last four characters are "_ACK"; a string shorter than four
    characters (other than "OK") is not cleared. *)
Definition IsCleared_spec (sev : string) : bool :=
  String.eqb sev "OK"
  || (4 <=? String.length sev)%nat
     && String.eqb (String.substring (String.length sev - 4) 4 sev) "_ACK".

(* ------------------------------------------------------------------ *)
(** ** Configuration (src/alarmconfiguration.h)

    The three timeouts are [unsigned int] seconds; 0 disables a channel.
    The connector re-reads them from the singleton at every use, so each
    tick of the model receives the configuration current at that tick. *)

Record AlarmConfiguration := mkAlarmConfiguration {
  laboratoryNotificationTimeout : N;
  desktopNotificationTimeout : N;
  eMailNotificationTimeout : N
}.

(* ------------------------------------------------------------------ *)
(** ** AlarmServerConnector state (src/alarmserverconnector.h)

    [_statusmap] is a [std::map<std::string, AlarmStatusEntry>]; it is
    modelled as a [gmap]. The only place where the model's iteration order
    differs from [std::map]'s (sorted by key) is the order of entries in a
    notification batch. *)

Record AlarmServerConnector := mkAlarmServerConnector {
  desktopVersion : bool;
  activateBeedo : bool;
  statusmap : gmap string AlarmStatusEntry;
  oldestAlarm : Z;
  flashlighton : bool
}.

Definition with_statusmap (asc : AlarmServerConnector)
  (m : gmap string AlarmStatusEntry) : AlarmServerConnector :=
  mkAlarmServerConnector asc.(desktopVersion) asc.(activateBeedo) m
    asc.(oldestAlarm) asc.(flashlighton).

Definition with_oldestAlarm (asc : AlarmServerConnector) (t : Z)
  : AlarmServerConnector :=
  mkAlarmServerConnector asc.(desktopVersion) asc.(activateBeedo)
    asc.(statusmap) t asc.(flashlighton).

Definition with_flashlighton (asc : AlarmServerConnector) (b : bool)
  : AlarmServerConnector :=
  mkAlarmServerConnector asc.(desktopVersion) asc.(activateBeedo)
    asc.(statusmap) asc.(oldestAlarm) b.

(** The constructor [AlarmServerConnector(desktopVersion, activateBeedo)]. *)
Definition newAlarmServerConnector (desktopVersion activateBeedo : bool)
  : result AlarmServerConnector :=
  if negb desktopVersion && activateBeedo then Throw logic_error
  else Ok (mkAlarmServerConnector desktopVersion activateBeedo ∅
             noAlarmActive false).

(** [AlarmServerConnector::getNumberOfAlarms]. *)
Definition getNumberOfAlarms (asc : AlarmServerConnector) : nat :=
  size asc.(statusmap).

(** [AlarmServerConnector::notifyStatusChange]. *)
Definition notifyStatusChange (asc : AlarmServerConnector)
  (st : AlarmStatusEntry) : result AlarmServerConnector :=
  let pv := st.(pvname) in
  let entry := asc.(statusmap) !! pv in
  cleared <-- checkSeverityString st.(severity) ;;
  if cleared then
    match entry with
    | Some _ => Ok (with_statusmap asc (delete pv asc.(statusmap)))
    | None => Ok asc
    end
  else
    let m := match entry with
             | None => <[pv := st]> asc.(statusmap)
             | Some e => <[pv := update e st]> asc.(statusmap)
             end in
    let asc1 := with_statusmap asc m in
    if Z.eqb asc1.(oldestAlarm) noAlarmActive
    then Ok (with_oldestAlarm asc1 st.(triggertime))
    else Ok asc1.

(* ------------------------------------------------------------------ *)
(** ** Notification preparation *)

(** One iteration of the loop of [prepareDesktopNotification]: the entry
    as it is left in the map, and the copy pushed into [alarmsToUse]. *)
Definition desktopLoopBody (cfg : AlarmConfiguration) (now : Z)
  (e : AlarmStatusEntry) : AlarmStatusEntry * option AlarmStatusEntry :=
  if Z.leb (e.(triggertime) + Z.of_N cfg.(desktopNotificationTimeout)) now
  then if negb e.(desktopNotificationSent)
       then let e' := setDesktopNotificationSent e true in (e', Some e')
       else (e, None)
  else (e, None).

(** [AlarmServerConnector::prepareDesktopNotification]: the connector
    after the loop, and [alarmsToUse] (handed to a detached
    [sendDesktopNotification] thread when it is non-empty). *)
Definition prepareDesktopNotification (cfg : AlarmConfiguration) (now : Z)
  (asc : AlarmServerConnector) : AlarmServerConnector * list AlarmStatusEntry :=
  if N.eqb cfg.(desktopNotificationTimeout) 0 then (asc, [])
  else
    let m := asc.(statusmap) in
    (with_statusmap asc ((fun e => fst (desktopLoopBody cfg now e)) <$> m),
     omap (fun ke => snd (desktopLoopBody cfg now ke.2)) (map_to_list m)).

(** One iteration of the loop of [prepareEMailNotification] (the
    per-entry trigger-time test is commented out in the source). *)
Definition emailLoopBody (e : AlarmStatusEntry)
  : AlarmStatusEntry * option AlarmStatusEntry :=
  if negb e.(emailNotificationSent)
  then let e' := setEmailNotificationSent e true in (e', Some e')
  else (e, None).

(** [AlarmServerConnector::prepareEMailNotification]. *)
Definition prepareEMailNotification (cfg : AlarmConfiguration)
  (asc : AlarmServerConnector) : AlarmServerConnector * list AlarmStatusEntry :=
  if asc.(desktopVersion) then (asc, [])
  else if N.eqb cfg.(eMailNotificationTimeout) 0 then (asc, [])
  else
    let m := asc.(statusmap) in
    (with_statusmap asc ((fun e => fst (emailLoopBody e)) <$> m),
     omap (fun ke => snd (emailLoopBody ke.2)) (map_to_list m)).

(* ------------------------------------------------------------------ *)
(** ** Observable effects of the background threads *)

Inductive Effect :=
| BeedoStart
| BeedoStop
| FlashLightOn     (* FlashLight::switchOn *)
| FlashLightOff    (* FlashLight::switchOff *)
| DesktopNotification (batch : list AlarmStatusEntry)
    (* detached sendDesktopNotification thread *)
| EMailNotification (batch : list AlarmStatusEntry).
    (* detached sendEMailNotification thread *)

(** A batch is handed to a sending thread only when it is non-empty. *)
Definition spawn (mk : list AlarmStatusEntry -> Effect)
  (batch : list AlarmStatusEntry) : list Effect :=
  match batch with
  | [] => []
  | _ => [mk batch]
  end.

(** The three [if] blocks of [AlarmServerConnector::checkStatusMap]. *)
Definition checkStatusMap_reset (asc : AlarmServerConnector)
  : AlarmServerConnector * list Effect :=
  if Nat.eqb (size asc.(statusmap)) 0 && negb (Z.eqb asc.(oldestAlarm) noAlarmActive)
  then (with_oldestAlarm asc noAlarmActive,
        if asc.(activateBeedo) then [BeedoStop] else [])
  else (asc, []).

Definition checkStatusMap_desktop (cfg : AlarmConfiguration) (now : Z)
  (asc : AlarmServerConnector) : AlarmServerConnector * list Effect :=
  if negb (Nat.eqb (size asc.(statusmap)) 0)
     && Z.leb (asc.(oldestAlarm) + Z.of_N cfg.(desktopNotificationTimeout)) now
  then let '(a, batch) := prepareDesktopNotification cfg now asc in
       (a, (spawn DesktopNotification batch
             ++ (if asc.(activateBeedo) then [BeedoStart] else []))%list)
  else (asc, []).

Definition checkStatusMap_email (cfg : AlarmConfiguration) (now : Z)
  (asc : AlarmServerConnector) : AlarmServerConnector * list Effect :=
  if negb (Nat.eqb (size asc.(statusmap)) 0)
     && Z.leb (asc.(oldestAlarm) + Z.of_N cfg.(eMailNotificationTimeout)) now
  then let '(a, batch) := prepareEMailNotification cfg asc in
       (a, spawn EMailNotification batch)
  else (asc, []).

(** [AlarmServerConnector::checkStatusMap], one tick of [startWatcher]. *)
Definition checkStatusMap (cfg : AlarmConfiguration) (now : Z)
  (asc : AlarmServerConnector) : AlarmServerConnector * list Effect :=
  let '(asc1, eff1) := checkStatusMap_reset asc in
  let '(asc2, eff2) := checkStatusMap_desktop cfg now asc1 in
  let '(asc3, eff3) := checkStatusMap_email cfg now asc2 in
  (asc3, (eff1 ++ eff2 ++ eff3)%list).

(** [AlarmServerConnector::switchFlashLightOn]. *)
Definition switchFlashLightOn (cfg : AlarmConfiguration)
  (asc : AlarmServerConnector) : AlarmServerConnector * list Effect :=
  if N.eqb cfg.(laboratoryNotificationTimeout) 0 then (asc, [])
  else (with_flashlighton asc true, [FlashLightOn]).

(** [AlarmServerConnector::switchFlashLightOff]. *)
Definition switchFlashLightOff (cfg : AlarmConfiguration)
  (asc : AlarmServerConnector) : AlarmServerConnector * list Effect :=
  if N.eqb cfg.(laboratoryNotificationTimeout) 0 then (asc, [])
  else (with_flashlighton asc false, [FlashLightOff]).

(** One iteration of the loop of [AlarmServerConnector::operateFlashLight];
    in the desktop version the thread returns before its loop. *)
Definition operateFlashLight (cfg : AlarmConfiguration) (now : Z)
  (asc : AlarmServerConnector) : AlarmServerConnector * list Effect :=
  if asc.(desktopVersion) then (asc, [])
  else
    let '(asc1, eff1) :=
      if negb asc.(flashlighton)
         && negb (Nat.eqb (size asc.(statusmap)) 0)
         && Z.leb (asc.(oldestAlarm) + Z.of_N cfg.(laboratoryNotificationTimeout)) now
      then switchFlashLightOn cfg asc
      else (asc, []) in
    let '(asc2, eff2) :=
      if asc1.(flashlighton) && Nat.eqb (size asc1.(statusmap)) 0
      then switchFlashLightOff cfg asc1
      else (asc1, []) in
    (asc2, (eff1 ++ eff2)%list).

(* ------------------------------------------------------------------ *)
(** ** The whole connector as a sequence of events

    Each operation runs under [_statusmapmutex] (the flash-light loop reads
    without it, but only reads), so a run is a sequence of atomic steps. *)

Inductive Event :=
| Report (st : AlarmStatusEntry)                    (* notifyStatusChange *)
| WatcherTick (cfg : AlarmConfiguration) (now : Z)  (* checkStatusMap *)
| FlashLightTick (cfg : AlarmConfiguration) (now : Z).  (* operateFlashLight *)

Definition step (ev : Event) (asc : AlarmServerConnector)
  : result (AlarmServerConnector * list Effect) :=
  match ev with
  | Report st => a <-- notifyStatusChange asc st ;; Ok (a, [])
  | WatcherTick cfg now => Ok (checkStatusMap cfg now asc)
  | FlashLightTick cfg now => Ok (operateFlashLight cfg now asc)
  end.

(** A run; an exception terminates the process (it escapes the [noexcept]
    [CMSClient::onMessage]), so nothing happens after it. *)
Fixpoint run (evs : list Event) (asc : AlarmServerConnector)
  : AlarmServerConnector * list Effect :=
  match evs with
  | [] => (asc, [])
  | ev :: evs' =>
      match step ev asc with
      | Throw _ => (asc, [])
      | Ok (asc', eff) => let '(a, effs) := run evs' asc' in (a, (eff ++ effs)%list)
      end
  end.

(** A sequence of [notifyStatusChange] calls. *)
Fixpoint reportAll (asc : AlarmServerConnector) (sts : list AlarmStatusEntry)
  : result AlarmServerConnector :=
  match sts with
  | [] => Ok asc
  | st :: sts' => a <-- notifyStatusChange asc st ;; reportAll a sts'
  end.

(* ------------------------------------------------------------------ *)
(** ** The rest of AlarmStatusEntry (src/alarmstatusentry.cpp) *)


(* ------------------------------------------------------------------ *)
(** ** std::string helpers *)

Definition newline : ascii := "010"%char.
Definition nl : string := String newline EmptyString.

(** [std::string::npos], the largest [size_t]. *)
Definition npos : Z := size_t_modulus - 1.

(** [std::string::find(pat)]: the first position at which [pat] occurs,
    or [npos]. *)
Fixpoint find_from (s pat : string) (i : nat) : option nat :=
  if String.prefix pat s then Some i
  else match s with
       | EmptyString => None
       | String _ s' => find_from s' pat (S i)
       end.

Definition string_find (s pat : string) : Z :=
  match find_from s pat 0 with
  | Some i => Z.of_nat i
  | None => npos
  end.

(** [std::string::replace(pos, len, str)]: throws [std::out_of_range] if
    [pos > size()], otherwise replaces the at most [len] characters from
    [pos] by [str]. *)
Definition string_replace (s : string) (pos len : Z) (r : string)
  : result string :=
  if Z.ltb (Z.of_nat (String.length s)) pos then Throw out_of_range
  else
    let p := Z.to_nat pos in
    let n := Nat.min (Z.to_nat len) (String.length s - p) in
    Ok (String.substring 0 p s ++ r
        ++ String.substring (p + n) (String.length s - (p + n)) s).

(** The number of occurrences of a character. *)
Fixpoint countChar (c : ascii) (s : string) : nat :=
  match s with
  | EmptyString => 0
  | String c' s' => (if Ascii.eqb c c' then 1 else 0) + countChar c s'
  end.

(** A string cut at its newline characters. *)
Fixpoint splitLines (s : string) : list string :=
  match s with
  | EmptyString => [""]
  | String c s' =>
      if Ascii.eqb c newline then "" :: splitLines s'
      else match splitLines s' with
           | [] => [String c EmptyString]
           | l :: ls => String c l :: ls
           end
  end.

(* ------------------------------------------------------------------ *)
(** ** Notification texts *)

(** The text of [AlarmServerConnector::sendDesktopNotification]. *)
Definition desktopAlarmText (alarm : list AlarmStatusEntry) : string :=
  fold_left (fun alarmtext e => alarmtext ++ (e.(pvname) ++ nl))
    alarm ("Alarm on this/these PV(s):" ++ nl).

(** The shell command of [sendDesktopNotification] when it is built
    without libnotify ([NOTUSELIBNOTIFY]); it is passed to [system()]. *)
Definition desktopNotifyCommand (alarm : list AlarmStatusEntry) : string :=
  let command := "notify-send -u critical -t 0 -i dialog-warning 'Detector Alarm' " in
  let command := command ++ "'" in
  let command := command ++ desktopAlarmText alarm in
  command ++ "'".

(** [EMailSender::composeMessageText] (a [QString] built from UTF-8; the
    model keeps the UTF-8 bytes). *)
Definition composeMessageText (alarms : list AlarmStatusEntry) : string :=
  let text := "" ++ ("Hello," ++ nl ++ nl
                     ++ "the following PV(s) triggered an alarm:" ++ nl ++ nl) in
  let text := fold_left (fun text e => text ++ (e.(pvname) ++ nl)) alarms text in
  text ++ (nl ++ "Please remember to acknowledge the alarms if you go solving the problem."
           ++ nl ++ nl ++ nl ++ "Your Alarm Notification Service" ++ nl).

(* ------------------------------------------------------------------ *)
(** ** CMSClient::onMessage (src/cmsclient.cpp) *)

(** A received CMS message: a [MapMessage] with its string items, or any
    other message type (for which [dynamic_cast] gives [nullptr]). *)
Inductive CMSMessage :=
| MapMessage (items : gmap string string)
| OtherMessage.

(** [CMSClient::onMessage]; [now] is the time at which the entry is
    constructed. The function is [noexcept]: a [Throw] here terminates the
    process. *)
Definition onMessage (now : Z) (message : CMSMessage) (asc : AlarmServerConnector)
  : result AlarmServerConnector :=
  match message with
  | OtherMessage => Ok asc
  | MapMessage items =>
      match items !! "TEXT" with
      | None => Ok asc
      | Some text =>
          if negb (String.eqb text "STATE") then Ok asc
          else match items !! "NAME", items !! "SEVERITY", items !! "STATUS" with
               | Some rawname, Some sev, Some st =>
                   name <-- string_replace rawname (string_find rawname "epics://") 8 "" ;;
                   notifyStatusChange asc (newAlarmStatusEntry name sev st now)
               | _, _, _ => Ok asc
               end
      end
  end.

(* ------------------------------------------------------------------ *)
(** ** AlarmConfiguration::CreateConfigFileLocation
       (src/alarmconfiguration.cpp)

    [CONFIGFILELOCATION] is the macro of the generated
    configfilelocation.inc; [envvar] and [home] are the values of
    [getenv("ALARMNOTIFICATIONSCONFIG")] and [getenv("HOME")]. *)

Definition CreateConfigFileLocation (CONFIGFILELOCATION : string)
  (envvar home : option string) : result string :=
  match envvar with
  | None =>
      match home with
      | Some h =>
          let conffile := CONFIGFILELOCATION in
          if negb (Z.eqb (string_find conffile "~") npos)
          then string_replace conffile (string_find conffile "~") 1 h
          else Ok conffile
      | None => Ok CONFIGFILELOCATION
      end
  | Some e => Ok e
  end.

(* ------------------------------------------------------------------ *)
(** ** FlashLight (src/flashlight.cpp)

    The serial line of the USB relay. The answers of the operating system
    to the calls of one switch are an input ([SerialOS]); the calls that
    open, write and close the device are recorded in a log. *)

Inductive SerialError :=
| serial_runtime_error  (* std::runtime_error *)
| serial_logic_error.   (* std::logic_error *)

Record FlashLight := mkFlashLight {
  deviceNode : string;
  fd : Z;
  fdOpen : bool
}.

Record SerialOS := mkSerialOS {
  os_open : Z;           (* open() *)
  os_tcgetattr : Z;      (* tcgetattr() *)
  os_cfsetispeed : Z;    (* cfsetispeed() *)
  os_cfsetospeed : Z;    (* cfsetospeed() *)
  os_tcsetattr : Z;      (* tcsetattr() *)
  os_write : list (Z * bool)
    (* successive results of write(), with whether errno is EAGAIN *)
}.

Inductive SysCall :=
| SysOpen (path : string)
| SysWrite (fd : Z) (bytes : list Byte.byte)
| SysClose (fd : Z).

(** How a call ends: normally, by an exception, or still in the
    [EAGAIN] retry loop after the given answers of [write()]. *)
Inductive SwitchOutcome :=
| Returned
| Raised (e : SerialError)
| Retrying.

(** [FlashLight::createCommand]. *)
Definition createCommand (lightSwitch : bool) : list Byte.byte :=
  [Byte.xff; Byte.x01; if lightSwitch then Byte.x01 else Byte.x00].

(** [FlashLight::openSerialInterface]: [_fd] is assigned before the
    check. *)
Definition openSerialInterface (os : SerialOS) (fl : FlashLight)
  : FlashLight * list SysCall * option SerialError :=
  let fd' := os.(os_open) in
  if Z.ltb fd' 0
  then (mkFlashLight fl.(deviceNode) fd' fl.(fdOpen), [SysOpen fl.(deviceNode)],
        Some serial_runtime_error)
  else (mkFlashLight fl.(deviceNode) fd' true, [SysOpen fl.(deviceNode)], None).

(** The exceptions of [FlashLight::configureSerialInterface]; the termios
    flags it computes are [configureTermios] below. *)
Definition configureSerialInterface (os : SerialOS) (fl : FlashLight)
  : option SerialError :=
  if negb fl.(fdOpen) then Some serial_logic_error
  else if Z.ltb os.(os_tcgetattr) 0 then Some serial_runtime_error
  else if Z.ltb os.(os_cfsetispeed) 0 then Some serial_runtime_error
  else if Z.ltb os.(os_cfsetospeed) 0 then Some serial_runtime_error
  else if Z.ltb os.(os_tcsetattr) 0 then Some serial_runtime_error
  else None.

(** The [do ... while] loop of [writeSerialInteface]: it repeats while
    [write()] fails with [EAGAIN]; [None] when the given answers run out
    inside the loop. *)
Fixpoint writeLoop (fd : Z) (bytes : list Byte.byte) (answers : list (Z * bool))
  : list SysCall * option Z :=
  match answers with
  | [] => ([], None)
  | (bytesWritten, eagain) :: rest =>
      if Z.ltb bytesWritten 0 && eagain
      then let '(log, r) := writeLoop fd bytes rest in (SysWrite fd bytes :: log, r)
      else ([SysWrite fd bytes], Some bytesWritten)
  end.

(** [FlashLight::writeSerialInteface]; the exceptions thrown inside its
    [try] block are caught by its [catch ( ... )]. *)
Definition writeSerialInteface (os : SerialOS) (fl : FlashLight)
  (command : list Byte.byte) : list SysCall * SwitchOutcome :=
  if negb fl.(fdOpen) then ([], Raised serial_logic_error)
  else
    let numBytes := length command in
    let buffer := (command ++ [Byte.x00])%list in
    let '(log, r) := writeLoop fl.(fd) (firstn numBytes buffer) os.(os_write) in
    match r with
    | None => (log, Retrying)
    | Some bytesWritten =>
        let inner :=
          if Z.ltb bytesWritten 0 then Raised serial_runtime_error
          else if Z.ltb bytesWritten (Z.of_nat numBytes) then Raised serial_runtime_error
          else Returned in
        match inner with
        | Raised _ => (log, Returned)
        | o => (log, o)
        end
    end.

(** [FlashLight::closeSerialInterface]. *)
Definition closeSerialInterface (fl : FlashLight) : FlashLight * list SysCall :=
  (mkFlashLight fl.(deviceNode) (-1) false, [SysClose fl.(fd)]).

(** [FlashLight::switchInternal]: open, configure, write, close; an
    exception leaves at once. *)
Definition switchInternal (os : SerialOS) (lightSwitch : bool) (fl : FlashLight)
  : FlashLight * list SysCall * SwitchOutcome :=
  let command := createCommand lightSwitch in
  let '(fl1, log1, e1) := openSerialInterface os fl in
  match e1 with
  | Some e => (fl1, log1, Raised e)
  | None =>
      match configureSerialInterface os fl1 with
      | Some e => (fl1, log1, Raised e)
      | None =>
          let '(log2, o) := writeSerialInteface os fl1 command in
          match o with
          | Returned =>
              let '(fl2, log3) := closeSerialInterface fl1 in
              (fl2, (log1 ++ log2 ++ log3)%list, Returned)
          | _ => (fl1, (log1 ++ log2)%list, o)
          end
      end
  end.

(** The termios flags of [configureSerialInterface] ([tcflag_t] is a
    32-bit [unsigned int]; the constants are those of Linux). *)
Definition tcflag_not (x : Z) : Z := Z.lxor x (2 ^ 32 - 1).

Definition IGNPAR : Z := 4.            (* 0000004 *)
Definition IXON : Z := 1024.           (* 0002000 *)
Definition IXOFF : Z := 4096.          (* 0010000 *)
Definition CSIZE : Z := 48.            (* 0000060 *)
Definition CS8 : Z := 48.              (* 0000060 *)
Definition CSTOPB : Z := 64.           (* 0000100 *)
Definition CREAD : Z := 128.           (* 0000200 *)
Definition PARENB : Z := 256.          (* 0000400 *)
Definition PARODD : Z := 512.          (* 0001000 *)
Definition CLOCAL : Z := 2048.         (* 0004000 *)
Definition CRTSCTS : Z := 2147483648.  (* 020000000000 *)

Record termios := mkTermios {
  c_iflag : Z;
  c_cflag : Z;
  c_vmin : Z;   (* c_cc[VMIN] *)
  c_vtime : Z   (* c_cc[VTIME] *)
}.

(** The configuration that [configureSerialInterface] computes from the
    one read by [tcgetattr], before the baud-rate calls. *)
Definition configureTermios (t : termios) : termios :=
  let vmin := 0%Z in
  let vtime := 0%Z in
  let cflag := Z.lor t.(c_cflag) (Z.lor CREAD CLOCAL) in
  let iflag := Z.land t.(c_iflag) (Z.land (tcflag_not IXON) (tcflag_not IXOFF)) in
  let cflag := Z.land cflag (tcflag_not CSIZE) in
  let cflag := Z.lor cflag CS8 in
  let cflag := Z.land cflag (Z.land (tcflag_not PARENB) (tcflag_not PARODD)) in
  let iflag := Z.lor iflag IGNPAR in
  let cflag := Z.land cflag (tcflag_not CSTOPB) in
  let cflag := Z.land cflag (tcflag_not CRTSCTS) in
  mkTermios iflag cflag vmin vtime.

(* ------------------------------------------------------------------ *)
(** ** Beedo (src/beedo.cpp)

    [_go] and the Qt signals emitted by [start_internal] and
    [stop_internal] (the static [start()] and [stop()] call them). *)

Inductive BeedoSignal := signalPlay | signalStop.

Definition start_internal (go : bool) : bool * list BeedoSignal :=
  if go then (go, []) else (true, [signalPlay]).

Definition stop_internal (go : bool) : bool * list BeedoSignal :=
  if negb go then (go, []) else (false, [signalStop]).

(** The Beedo engine driven by the effects of the connector. *)
Fixpoint beedoDrive (effs : list Effect) (go : bool) : bool * list BeedoSignal :=
  match effs with
  | [] => (go, [])
  | BeedoStart :: effs' =>
      let '(go1, s1) := start_internal go in
      let '(go2, s2) := beedoDrive effs' go1 in (go2, (s1 ++ s2)%list)
  | BeedoStop :: effs' =>
      let '(go1, s1) := stop_internal go in
      let '(go2, s2) := beedoDrive effs' go1 in (go2, (s1 ++ s2)%list)
  | _ :: effs' => beedoDrive effs' go
  end.

(** A list of signals alternating from [first]. *)
Fixpoint alternating (first : BeedoSignal) (l : list BeedoSignal) : bool :=
  match l, first with
  | [], _ => true
  | signalPlay :: l', signalPlay => alternating signalStop l'
  | signalStop :: l', signalStop => alternating signalPlay l'
  | _, _ => false
  end.

(* ------------------------------------------------------------------ *)
(** ** DesktopAlarmWidget (src/desktopalarmwidget.cpp)

    The widget owns an optional connector in desktop mode. [daw_icon] is
    the tray-icon status that both subclasses (Qt and KDE 4) set in
    [notificationSwitchChange] and [changeTrayIcon]; a slot connected to a
    signal is run when the signal is emitted. *)

Inductive DesktopAlarmWidgetStatus := ActiveOK | ActiveAlarm | Disabled.

Record DesktopAlarmWidget := mkDesktopAlarmWidget {
  daw_activateBeedo : bool;
  daw_asc : option AlarmServerConnector;
  daw_alarmActive : bool;
  daw_icon : DesktopAlarmWidgetStatus
}.

Definition with_asc (w : DesktopAlarmWidget) (a : option AlarmServerConnector)
  : DesktopAlarmWidget :=
  mkDesktopAlarmWidget w.(daw_activateBeedo) a w.(daw_alarmActive) w.(daw_icon).

Definition with_alarmActive (w : DesktopAlarmWidget) (b : bool) : DesktopAlarmWidget :=
  mkDesktopAlarmWidget w.(daw_activateBeedo) w.(daw_asc) b w.(daw_icon).

Definition with_icon (w : DesktopAlarmWidget) (i : DesktopAlarmWidgetStatus)
  : DesktopAlarmWidget :=
  mkDesktopAlarmWidget w.(daw_activateBeedo) w.(daw_asc) w.(daw_alarmActive) i.


(** [DesktopAlarmWidget::getStatus]. *)
Definition getStatus (w : DesktopAlarmWidget) : DesktopAlarmWidgetStatus :=
  match w.(daw_asc) with
  | None => Disabled
  | Some _ => if w.(daw_alarmActive) then ActiveAlarm else ActiveOK
  end.

(** The slot [changeTrayIcon] of the subclasses. *)
Definition changeTrayIcon (w : DesktopAlarmWidget) : DesktopAlarmWidget :=
  with_icon w (if w.(daw_alarmActive) then ActiveAlarm else ActiveOK).

(** The slot [notificationSwitchChange] of the subclasses. *)
Definition notificationSwitchChange (enabled : bool) (w : DesktopAlarmWidget)
  : DesktopAlarmWidget :=
  with_icon w (if enabled then ActiveOK else Disabled).

(** [DesktopAlarmWidget::toggleNotifications]. *)
Definition toggleNotifications (w : DesktopAlarmWidget) : result DesktopAlarmWidget :=
  match w.(daw_asc) with
  | None =>
      asc <-- newAlarmServerConnector true w.(daw_activateBeedo) ;;
      Ok (notificationSwitchChange true (with_asc w (Some asc)))
  | Some _ => Ok (notificationSwitchChange false (with_asc w None))
  end.

(** One iteration of the loop of [DesktopAlarmWidget::observeAlarmStatus]. *)
Definition observeAlarmStatus_iteration (w : DesktopAlarmWidget) : DesktopAlarmWidget :=
  match w.(daw_asc) with
  | None => w
  | Some asc =>
      let w1 := if w.(daw_alarmActive) && Nat.eqb (getNumberOfAlarms asc) 0
                then changeTrayIcon (with_alarmActive w false) else w in
      if negb w1.(daw_alarmActive) && negb (Nat.eqb (getNumberOfAlarms asc) 0)
      then changeTrayIcon (with_alarmActive w1 true) else w1
  end.

(** What happens to a widget: an event of its connector (there is none
    to receive it while notifications are disabled), a click on the
    toggle action, or an iteration of the observer thread. *)
Inductive WidgetEvent :=
| WConnector (ev : Event)
| WToggle
| WObserve.

Definition widgetStep (we : WidgetEvent) (w : DesktopAlarmWidget)
  : result DesktopAlarmWidget :=
  match we with
  | WConnector ev =>
      match w.(daw_asc) with
      | None => Ok w
      | Some asc => r <-- step ev asc ;; Ok (with_asc w (Some (fst r)))
      end
  | WToggle => toggleNotifications w
  | WObserve => Ok (observeAlarmStatus_iteration w)
  end.

(** The text of a list of PV names, one per line, and of a list of
    lines: the blocks that the fold loops above build. *)
Definition pvBlock (alarm : list AlarmStatusEntry) : string :=
  fold_right (fun e acc => e.(pvname) ++ (nl ++ acc)) "" alarm.

Definition linesBlock (ls : list string) : string :=
  fold_right (fun l acc => l ++ String newline acc) "" ls.

(* ================================================================== *)
(** * Properties *)

(* ------------------------------------------------------------------ *)
(** ** Severity classification *)

Lemma size_t_sub_small (a b : Z) :
  (0 <= b <= a)%Z -> (a < size_t_modulus)%Z -> size_t_sub a b = (a - b)%Z.
Proof.
  intros ? ?. unfold size_t_sub, size_t_modulus in *.
  apply Z.mod_small. lia.
Qed.

Lemma size_t_sub_wraps (a b : Z) :
  (0 <= a < b)%Z -> (b <= size_t_modulus)%Z ->
  size_t_sub a b = (size_t_modulus + (a - b))%Z.
Proof.
  intros ? ?. unfold size_t_sub.
  symmetry. apply (Z.mod_unique _ _ (-1)); unfold size_t_modulus in *; lia.
Qed.

(** On severities of at least four characters (and on "OK"),
    [checkSeverityString] returns without exception and agrees with the
    spec's [IsCleared]. A [std::string] is shorter than 2^64. *)
Lemma checkSeverityString_long (sev : string) :
  (4 <= String.length sev)%nat ->
  (Z.of_nat (String.length sev) < size_t_modulus)%Z ->
  checkSeverityString sev = Ok (IsCleared_spec sev).
Proof.
  intros Hlen Hmax. unfold checkSeverityString, IsCleared_spec.
  destruct (String.eqb sev "OK") eqn:Hok; [reflexivity|].
  replace (4 <=? String.length sev)%nat with true
    by (symmetry; apply Nat.leb_le; lia).
  rewrite size_t_sub_small by lia.
  unfold substr.
  rewrite (proj2 (Z.ltb_ge _ _)) by lia. cbn [result_bind orb andb].
  replace (Z.to_nat (Z.of_nat (String.length sev) - 4)) with (String.length sev - 4)%nat
    by lia.
  reflexivity.
Qed.

(** On every severity shorter than four characters other than "OK",
    [std::string::substr] is called with the wrapped position
    [length() - 4] and throws [std::out_of_range]. *)
Lemma checkSeverityString_short (sev : string) :
  (String.length sev < 4)%nat -> sev <> "OK" ->
  checkSeverityString sev = Throw out_of_range.
Proof.
  intros Hlen Hok. unfold checkSeverityString.
  destruct (String.eqb_spec sev "OK"); [contradiction|].
  rewrite size_t_sub_wraps by (unfold size_t_modulus; lia).
  unfold substr, size_t_modulus. simpl.
  rewrite (proj2 (Z.ltb_lt _ _)) by lia. reflexivity.
Qed.

(** Claim C1 (failing input): IsCleared must treat "", "A" and "ACK" as
    not cleared without error, and return false, false, false, true, true,
    false on "", "A", "ACK", "X_ACK", "OK", "NOT_OK". The code throws
    [std::out_of_range] on the first three and classifies the last three
    as the spec says. *)
Theorem checkSeverityString_boundary :
  checkSeverityString "" = Throw out_of_range
  /\ checkSeverityString "A" = Throw out_of_range
  /\ checkSeverityString "ACK" = Throw out_of_range
  /\ checkSeverityString "X_ACK" = Ok true
  /\ checkSeverityString "OK" = Ok true
  /\ checkSeverityString "NOT_OK" = Ok false.
Proof. repeat split; vm_compute; reflexivity. Qed.

(** Whenever [checkSeverityString] returns, it agrees with [IsCleared]. *)
Lemma checkSeverityString_ok (sev : string) (b : bool) :
  (Z.of_nat (String.length sev) < size_t_modulus)%Z ->
  checkSeverityString sev = Ok b -> b = IsCleared_spec sev.
Proof.
  intros Hmax H.
  destruct (decide (4 <= String.length sev)%nat) as [Hl|Hl].
  - rewrite checkSeverityString_long in H by assumption. injection H. auto.
  - destruct (String.eqb_spec sev "OK") as [->|Hok].
    + vm_compute in H |- *. congruence.
    + rewrite checkSeverityString_short in H by (assumption || lia). discriminate.
Qed.

(* ------------------------------------------------------------------ *)
(** ** The number of active alarms *)

(** The severity of the most recent report for [pv] in [sts], starting
    from [acc]. *)
Definition latestSeverity (acc : option string) (sts : list AlarmStatusEntry)
  (pv : string) : option string :=
  fold_left (fun a st => if String.eqb st.(pvname) pv then Some st.(severity) else a)
    sts acc.

(** Whether the most recent report for [pv] had a non-cleared severity. *)
Definition latestIsActive (sts : list AlarmStatusEntry) (pv : string) : bool :=
  match latestSeverity None sts pv with
  | Some sev => negb (IsCleared_spec sev)
  | None => false
  end.

(** The entities whose most recent report was non-cleared (the spec's
    characterisation of [Count()]). *)
Definition liveEntities (sts : list AlarmStatusEntry) : gset string :=
  list_to_set (filter (fun pv => latestIsActive sts pv = true) (map pvname sts)).

Lemma latestSeverity_acc (acc : option string) (sts : list AlarmStatusEntry)
  (pv : string) :
  latestSeverity acc sts pv =
  match latestSeverity None sts pv with Some x => Some x | None => acc end.
Proof.
  unfold latestSeverity. revert acc.
  induction sts as [|st sts IH]; intros acc; [reflexivity|].
  simpl. destruct (String.eqb (pvname st) pv).
  - rewrite (IH (Some (severity st))).
    destruct (fold_left _ sts None); reflexivity.
  - rewrite (IH acc), (IH None).
    destruct (fold_left _ sts None); reflexivity.
Qed.

Lemma latestSeverity_in (sts : list AlarmStatusEntry) (pv : string) :
  is_Some (latestSeverity None sts pv) <-> pv ∈ map pvname sts.
Proof.
  induction sts as [|st sts IH].
  - unfold latestSeverity. simpl. split; intros H.
    + destruct H as [x Hx]. discriminate.
    + apply not_elem_of_nil in H. contradiction.
  - unfold latestSeverity in *. simpl. rewrite elem_of_cons.
    destruct (String.eqb_spec (pvname st) pv) as [<-|Hne].
    + pose proof (latestSeverity_acc (Some (severity st)) sts (pvname st)) as E.
      unfold latestSeverity in E. rewrite E.
      split; [intros _; left; reflexivity|intros _].
      destruct (fold_left _ sts None); eexists; reflexivity.
    + rewrite IH. split; [intros H; right; exact H|].
      intros [H|H]; [congruence|exact H].
Qed.

(** One [notifyStatusChange] call: which entities are in the map after. *)
Lemma notifyStatusChange_lookup (s s1 : AlarmServerConnector)
  (st : AlarmStatusEntry) (b : bool) (pv : string) :
  checkSeverityString st.(severity) = Ok b ->
  notifyStatusChange s st = Ok s1 ->
  is_Some (s1.(statusmap) !! pv) <->
  (if String.eqb st.(pvname) pv then b = false else is_Some (s.(statusmap) !! pv)).
Proof.
  intros Hb H. unfold notifyStatusChange in H. rewrite Hb in H. cbn in H.
  assert (Hm : s1.(statusmap) =
    if b then delete st.(pvname) s.(statusmap)
    else match s.(statusmap) !! st.(pvname) with
         | None => <[st.(pvname) := st]> s.(statusmap)
         | Some e => <[st.(pvname) := update e st]> s.(statusmap)
         end).
  { destruct b.
    - destruct (s.(statusmap) !! st.(pvname)) eqn:E; inversion H; subst; simpl;
        [reflexivity|]. rewrite delete_id by exact E. reflexivity.
    - destruct (Z.eqb _ _); inversion H; subst; reflexivity. }
  rewrite Hm.
  destruct (String.eqb_spec st.(pvname) pv) as [<-|Hne].
  - destruct b.
    + rewrite lookup_delete_eq. split; [intros [? ?]; discriminate|discriminate].
    + destruct (s.(statusmap) !! st.(pvname)); rewrite lookup_insert_eq; split; eauto.
  - destruct b.
    + rewrite lookup_delete_ne by exact Hne. reflexivity.
    + destruct (s.(statusmap) !! st.(pvname));
        rewrite lookup_insert_ne by exact Hne; reflexivity.
Qed.

Lemma notifyStatusChange_check (s s1 : AlarmServerConnector)
  (st : AlarmStatusEntry) :
  notifyStatusChange s st = Ok s1 ->
  exists b, checkSeverityString st.(severity) = Ok b.
Proof.
  unfold notifyStatusChange. destruct (checkSeverityString _) as [b|e]; cbn.
  - intros _. exists b. reflexivity.
  - discriminate.
Qed.

(** A sequence of reports: which entities are in the map afterwards. *)
Lemma reportAll_lookup (sts : list AlarmStatusEntry) :
  Forall (fun st => Z.of_nat (String.length st.(severity)) < size_t_modulus)%Z sts ->
  forall (s s' : AlarmServerConnector) (pv : string),
  reportAll s sts = Ok s' ->
  is_Some (s'.(statusmap) !! pv) <->
  match latestSeverity None sts pv with
  | Some sev => IsCleared_spec sev = false
  | None => is_Some (s.(statusmap) !! pv)
  end.
Proof.
  induction 1 as [|st sts Hst Hall IH]; intros s s' pv H.
  - simpl in H. injection H as <-. reflexivity.
  - simpl in H. destruct (notifyStatusChange s st) as [s1|e] eqn:E; [|discriminate].
    cbn in H. rewrite (IH _ _ pv H).
    destruct (notifyStatusChange_check _ _ _ E) as [b Hb].
    pose proof (checkSeverityString_ok _ _ Hst Hb) as ->.
    unfold latestSeverity at 2. simpl.
    fold (latestSeverity (if String.eqb (pvname st) pv then Some (severity st) else None) sts pv).
    rewrite (latestSeverity_acc (if String.eqb (pvname st) pv then Some (severity st) else None)).
    destruct (latestSeverity None sts pv); [reflexivity|].
    rewrite (notifyStatusChange_lookup _ _ _ _ pv Hb E).
    destruct (String.eqb (pvname st) pv); reflexivity.
Qed.

(** On every sequence of reports none of which throws, [Count()] is the
    number of distinct entities whose most recent report was non-cleared. *)
Lemma reportAll_count (d bd : bool) (s0 s : AlarmServerConnector)
  (sts : list AlarmStatusEntry) :
  Forall (fun st => Z.of_nat (String.length st.(severity)) < size_t_modulus)%Z sts ->
  newAlarmServerConnector d bd = Ok s0 ->
  reportAll s0 sts = Ok s ->
  getNumberOfAlarms s = size (liveEntities sts).
Proof.
  intros Hall Hnew H.
  assert (Hs0 : s0.(statusmap) = ∅).
  { unfold newAlarmServerConnector in Hnew.
    destruct (negb d && bd); [discriminate|]. injection Hnew as <-. reflexivity. }
  unfold getNumberOfAlarms. rewrite <- (size_dom (D := gset string)).
  f_equal. apply set_eq. intros pv.
  rewrite elem_of_dom, (reportAll_lookup _ Hall _ _ pv H), Hs0, lookup_empty.
  unfold liveEntities. rewrite elem_of_list_to_set, list_elem_of_filter.
  rewrite <- latestSeverity_in. unfold latestIsActive.
  destruct (latestSeverity None sts pv) as [sev|].
  - destruct (IsCleared_spec sev); simpl; split; intros H1;
      try discriminate; try (destruct H1; discriminate); eauto.
  - split; [intros [? ?]; discriminate|intros [H1 _]; discriminate].
Qed.

(** A cleared report for an entity that is not in the map is a no-op. *)
Lemma notifyStatusChange_cleared_untracked (s : AlarmServerConnector)
  (st : AlarmStatusEntry) :
  checkSeverityString st.(severity) = Ok true ->
  s.(statusmap) !! st.(pvname) = None ->
  notifyStatusChange s st = Ok s.
Proof.
  intros Hb Hn. unfold notifyStatusChange. rewrite Hb. cbn. rewrite Hn. reflexivity.
Qed.

Definition freshConnector : AlarmServerConnector :=
  mkAlarmServerConnector false false ∅ noAlarmActive false.

(** Claim C2 (failing input): a fresh service receiving the single report
    ("pv1", "A", "ALARM") should count one alarm, since "A" is not
    cleared; the call throws [std::out_of_range] instead (the defect of
    [checkSeverityString] on short severities), while scenario A of the
    spec ("MAJOR" then "MAJOR_ACK") gives 1 then 0. *)
Theorem reportAll_short_severity_throws :
  newAlarmServerConnector false false = Ok freshConnector
  /\ size (liveEntities [newAlarmStatusEntry "pv1" "A" "ALARM" 0]) = 1%nat
  /\ reportAll freshConnector [newAlarmStatusEntry "pv1" "A" "ALARM" 0]
     = Throw out_of_range
  /\ (a <-- reportAll freshConnector [newAlarmStatusEntry "pv1" "MAJOR" "ALARM" 0] ;;
      Ok (getNumberOfAlarms a)) = Ok 1%nat
  /\ (a <-- reportAll freshConnector [newAlarmStatusEntry "pv1" "MAJOR" "ALARM" 0;
                                       newAlarmStatusEntry "pv1" "MAJOR_ACK" "ALARM" 1] ;;
      Ok (getNumberOfAlarms a)) = Ok 0%nat.
Proof. repeat split; vm_compute; reflexivity. Qed.

(* ------------------------------------------------------------------ *)
(** ** What each operation leaves unchanged *)

Lemma prepareDesktopNotification_fields (cfg : AlarmConfiguration) (now : Z)
  (asc : AlarmServerConnector) :
  let a := fst (prepareDesktopNotification cfg now asc) in
  a.(desktopVersion) = asc.(desktopVersion)
  /\ a.(activateBeedo) = asc.(activateBeedo)
  /\ a.(oldestAlarm) = asc.(oldestAlarm)
  /\ a.(flashlighton) = asc.(flashlighton)
  /\ (forall k, a.(statusmap) !! k = asc.(statusmap) !! k
        \/ a.(statusmap) !! k = (fun e => fst (desktopLoopBody cfg now e)) <$> asc.(statusmap) !! k).
Proof.
  unfold prepareDesktopNotification.
  destruct (N.eqb (desktopNotificationTimeout cfg) 0); simpl.
  - repeat split; auto.
  - repeat split; intros k; right; apply lookup_fmap.
Qed.

Lemma prepareEMailNotification_fields (cfg : AlarmConfiguration)
  (asc : AlarmServerConnector) :
  let a := fst (prepareEMailNotification cfg asc) in
  a.(desktopVersion) = asc.(desktopVersion)
  /\ a.(activateBeedo) = asc.(activateBeedo)
  /\ a.(oldestAlarm) = asc.(oldestAlarm)
  /\ a.(flashlighton) = asc.(flashlighton)
  /\ (forall k, a.(statusmap) !! k = asc.(statusmap) !! k
        \/ a.(statusmap) !! k = (fun e => fst (emailLoopBody e)) <$> asc.(statusmap) !! k).
Proof.
  unfold prepareEMailNotification.
  destruct (desktopVersion asc) eqn:Hd; [simpl; repeat split; auto|].
  destruct (N.eqb (eMailNotificationTimeout cfg) 0); simpl.
  - repeat split; auto.
  - repeat split; [rewrite Hd; reflexivity|].
    intros k; right; apply lookup_fmap.
Qed.

(** [checkStatusMap]: the oldest-alarm timestamp only changes by the reset
    of its first block; the map keeps its keys; the flags of the
    connector stay. *)
Lemma checkStatusMap_reset_fields (asc : AlarmServerConnector) :
  let a := fst (checkStatusMap_reset asc) in
  a.(desktopVersion) = asc.(desktopVersion)
  /\ a.(activateBeedo) = asc.(activateBeedo)
  /\ a.(flashlighton) = asc.(flashlighton)
  /\ a.(statusmap) = asc.(statusmap)
  /\ a.(oldestAlarm) =
       (if Nat.eqb (size asc.(statusmap)) 0 && negb (Z.eqb asc.(oldestAlarm) noAlarmActive)
        then noAlarmActive else asc.(oldestAlarm)).
Proof.
  unfold checkStatusMap_reset. destruct (_ && _); repeat split.
Qed.

Lemma checkStatusMap_desktop_fields (cfg : AlarmConfiguration) (now : Z)
  (asc : AlarmServerConnector) :
  fst (checkStatusMap_desktop cfg now asc) = asc
  \/ fst (checkStatusMap_desktop cfg now asc) = fst (prepareDesktopNotification cfg now asc).
Proof.
  unfold checkStatusMap_desktop. destruct (_ && _); [|left; reflexivity].
  destruct (prepareDesktopNotification cfg now asc). right. reflexivity.
Qed.

Lemma checkStatusMap_email_fields (cfg : AlarmConfiguration) (now : Z)
  (asc : AlarmServerConnector) :
  fst (checkStatusMap_email cfg now asc) = asc
  \/ fst (checkStatusMap_email cfg now asc) = fst (prepareEMailNotification cfg asc).
Proof.
  unfold checkStatusMap_email. destruct (_ && _); [|left; reflexivity].
  destruct (prepareEMailNotification cfg asc). right. reflexivity.
Qed.

Lemma checkStatusMap_fields (cfg : AlarmConfiguration) (now : Z)
  (asc : AlarmServerConnector) :
  let a := fst (checkStatusMap cfg now asc) in
  a.(desktopVersion) = asc.(desktopVersion)
  /\ a.(activateBeedo) = asc.(activateBeedo)
  /\ a.(flashlighton) = asc.(flashlighton)
  /\ a.(oldestAlarm) =
       (if Nat.eqb (size asc.(statusmap)) 0 && negb (Z.eqb asc.(oldestAlarm) noAlarmActive)
        then noAlarmActive else asc.(oldestAlarm))
  /\ (forall k, a.(statusmap) !! k = asc.(statusmap) !! k
        \/ a.(statusmap) !! k = (fun e => fst (desktopLoopBody cfg now e)) <$> asc.(statusmap) !! k
        \/ a.(statusmap) !! k = (fun e => fst (emailLoopBody e)) <$> asc.(statusmap) !! k
        \/ a.(statusmap) !! k = (fun e => fst (emailLoopBody (fst (desktopLoopBody cfg now e))))
                                  <$> asc.(statusmap) !! k).
Proof.
  unfold checkStatusMap.
  pose proof (checkStatusMap_reset_fields asc) as (Hd1 & Hb1 & Hl1 & Hm1 & Ho1).
  destruct (checkStatusMap_reset asc) as [a1 eff1]. simpl in *.
  assert (Hf2 : let a2 := fst (checkStatusMap_desktop cfg now a1) in
     a2.(desktopVersion) = a1.(desktopVersion)
     /\ a2.(activateBeedo) = a1.(activateBeedo)
     /\ a2.(flashlighton) = a1.(flashlighton)
     /\ a2.(oldestAlarm) = a1.(oldestAlarm)
     /\ (forall k, a2.(statusmap) !! k = a1.(statusmap) !! k
        \/ a2.(statusmap) !! k = (fun e => fst (desktopLoopBody cfg now e)) <$> a1.(statusmap) !! k)).
  { destruct (checkStatusMap_desktop_fields cfg now a1) as [-> | ->]; simpl;
      [repeat split; auto|].
    destruct (prepareDesktopNotification_fields cfg now a1) as (? & ? & ? & ? & ?).
    repeat split; auto. }
  destruct (checkStatusMap_desktop cfg now a1) as [a2 eff2].
  simpl in Hf2. destruct Hf2 as (Hd2 & Hb2 & Hl2 & Ho2 & Hm2).
  assert (Hf3 : let a3 := fst (checkStatusMap_email cfg now a2) in
     a3.(desktopVersion) = a2.(desktopVersion)
     /\ a3.(activateBeedo) = a2.(activateBeedo)
     /\ a3.(flashlighton) = a2.(flashlighton)
     /\ a3.(oldestAlarm) = a2.(oldestAlarm)
     /\ (forall k, a3.(statusmap) !! k = a2.(statusmap) !! k
        \/ a3.(statusmap) !! k = (fun e => fst (emailLoopBody e)) <$> a2.(statusmap) !! k)).
  { destruct (checkStatusMap_email_fields cfg now a2) as [-> | ->]; simpl;
      [repeat split; auto|].
    destruct (prepareEMailNotification_fields cfg a2) as (? & ? & ? & ? & ?).
    repeat split; auto. }
  destruct (checkStatusMap_email cfg now a2) as [a3 eff3].
  simpl in Hf3 |- *. destruct Hf3 as (Hd3 & Hb3 & Hl3 & Ho3 & Hm3).
  repeat split; try congruence.
  intros k. rewrite <- Hm1.
  destruct (Hm3 k) as [E3|E3]; destruct (Hm2 k) as [E2|E2]; rewrite E3, ?E2.
  - left; reflexivity.
  - right; left; reflexivity.
  - right; right; left; reflexivity.
  - right; right; right. destruct (a1.(statusmap) !! k); reflexivity.
Qed.

Lemma operateFlashLight_fields (cfg : AlarmConfiguration) (now : Z)
  (asc : AlarmServerConnector) :
  let a := fst (operateFlashLight cfg now asc) in
  a.(desktopVersion) = asc.(desktopVersion)
  /\ a.(activateBeedo) = asc.(activateBeedo)
  /\ a.(statusmap) = asc.(statusmap)
  /\ a.(oldestAlarm) = asc.(oldestAlarm).
Proof.
  unfold operateFlashLight, switchFlashLightOn, switchFlashLightOff.
  destruct (desktopVersion asc) eqn:Hd; [simpl; auto|].
  repeat (match goal with |- context [if ?c then _ else _] => destruct c eqn:? end;
          simpl); auto.
Qed.

(** [notifyStatusChange], when it returns: its effect on every field. *)
Lemma notifyStatusChange_spec (s s1 : AlarmServerConnector)
  (st : AlarmStatusEntry) (b : bool) :
  checkSeverityString st.(severity) = Ok b ->
  notifyStatusChange s st = Ok s1 ->
  s1.(desktopVersion) = s.(desktopVersion)
  /\ s1.(activateBeedo) = s.(activateBeedo)
  /\ s1.(flashlighton) = s.(flashlighton)
  /\ s1.(oldestAlarm) =
       (if b then s.(oldestAlarm)
        else if Z.eqb s.(oldestAlarm) noAlarmActive then st.(triggertime)
        else s.(oldestAlarm))
  /\ s1.(statusmap) =
       (if b then delete st.(pvname) s.(statusmap)
        else match s.(statusmap) !! st.(pvname) with
             | None => <[st.(pvname) := st]> s.(statusmap)
             | Some e => <[st.(pvname) := update e st]> s.(statusmap)
             end).
Proof.
  intros Hb H. unfold notifyStatusChange in H. rewrite Hb in H. cbn in H.
  destruct b.
  - destruct (s.(statusmap) !! st.(pvname)) eqn:E; injection H as <-;
      repeat split; simpl; try reflexivity.
    rewrite delete_id by exact E. reflexivity.
  - simpl in H. destruct (Z.eqb (oldestAlarm s) noAlarmActive) eqn:Eo;
      injection H as <-; repeat split; simpl; rewrite ?Eo; reflexivity.
Qed.

(* ------------------------------------------------------------------ *)
(** ** Reachable states and the oldest-alarm timestamp *)

(** [std::time] never returns [LONG_MIN]: a report's time differs from
    the sentinel [noAlarmActive]. *)
Definition eventTimeOk (ev : Event) : Prop :=
  match ev with
  | Report st => st.(triggertime) <> noAlarmActive
  | _ => True
  end.

Inductive reachable : AlarmServerConnector -> Prop :=
| reachable_new (d bd : bool) (s : AlarmServerConnector) :
    newAlarmServerConnector d bd = Ok s -> reachable s
| reachable_step (s : AlarmServerConnector) (ev : Event)
    (s' : AlarmServerConnector) (eff : list Effect) :
    reachable s -> eventTimeOk ev -> step ev s = Ok (s', eff) -> reachable s'.

Lemma step_report_inv (s s' : AlarmServerConnector) (st : AlarmStatusEntry)
  (eff : list Effect) :
  step (Report st) s = Ok (s', eff) ->
  notifyStatusChange s st = Ok s' /\ eff = [].
Proof.
  simpl. destruct (notifyStatusChange s st); cbn; [|discriminate].
  intros H. injection H as -> ->. auto.
Qed.

(** A map whose entries are each kept or rewritten by a function is
    empty exactly when the original map is. *)
Lemma map_keep_or_rewrite_empty (m m' : gmap string AlarmStatusEntry)
  (f g h : AlarmStatusEntry -> AlarmStatusEntry) :
  (forall k, m' !! k = m !! k \/ m' !! k = f <$> m !! k
             \/ m' !! k = g <$> m !! k \/ m' !! k = h <$> m !! k) ->
  m = ∅ -> m' = ∅.
Proof.
  intros Hk ->. apply map_empty. intros k.
  destruct (Hk k) as [E|[E|[E|E]]]; rewrite E, lookup_empty; reflexivity.
Qed.

(** Invariant: while the timestamp holds the sentinel, the map is empty. *)
Lemma reachable_sentinel_empty (s : AlarmServerConnector) :
  reachable s -> s.(oldestAlarm) = noAlarmActive -> s.(statusmap) = ∅.
Proof.
  induction 1 as [d bd s Hnew|s ev s' eff Hr IH Hev Hstep]; intros Ho.
  - unfold newAlarmServerConnector in Hnew.
    destruct (negb d && bd); [discriminate|]. injection Hnew as <-. reflexivity.
  - destruct ev as [st|cfg now|cfg now]; simpl in Hev.
    + apply step_report_inv in Hstep as [Hn _].
      destruct (notifyStatusChange_check _ _ _ Hn) as [b Hb].
      destruct (notifyStatusChange_spec _ _ _ _ Hb Hn) as (_ & _ & _ & Ho' & Hm').
      destruct b.
      * rewrite Hm', IH by congruence. apply delete_empty.
      * destruct (Z.eqb_spec (oldestAlarm s) noAlarmActive); congruence.
    + simpl in Hstep. injection Hstep as Hs'.
      destruct (checkStatusMap_fields cfg now s) as (_ & _ & _ & Ho' & Hm').
      rewrite Hs' in Ho', Hm'. simpl in Ho', Hm'.
      eapply map_keep_or_rewrite_empty; [exact Hm'|].
      destruct (Nat.eqb_spec (size (statusmap s)) 0) as [Hz|Hz].
      * apply map_size_empty_inv. exact Hz.
      * apply IH. simpl in Ho'. congruence.
    + simpl in Hstep. injection Hstep as Hs'.
      destruct (operateFlashLight_fields cfg now s) as (_ & _ & Hm' & Ho').
      rewrite Hs' in Hm', Ho'. simpl in Hm', Ho'. rewrite Hm'. apply IH. congruence.
Qed.

(** Claim C3: in every reachable state, a step changes [_oldestAlarm] only
    in two ways: a report that inserts a new record while the timestamp
    holds the sentinel sets it to that record's trigger time, or a watcher
    tick that finds the map empty resets it to the sentinel. In particular
    a removal (cleared report) never changes it, and nothing recomputes it
    as the minimum of the remaining records. *)
Theorem oldestAlarm_step (s s' : AlarmServerConnector) (ev : Event)
  (eff : list Effect) :
  reachable s ->
  step ev s = Ok (s', eff) ->
  (forall st, ev = Report st -> checkSeverityString st.(severity) = Ok true ->
     s'.(oldestAlarm) = s.(oldestAlarm))
  /\ (s'.(oldestAlarm) = s.(oldestAlarm)
      \/ (s.(oldestAlarm) = noAlarmActive
          /\ exists st, ev = Report st
               /\ s.(statusmap) !! st.(pvname) = None
               /\ s'.(statusmap) !! st.(pvname) = Some st
               /\ s'.(oldestAlarm) = st.(triggertime))
      \/ (exists cfg now, ev = WatcherTick cfg now
           /\ s.(statusmap) = ∅
           /\ s'.(oldestAlarm) = noAlarmActive)).
Proof.
  intros Hr Hstep. destruct ev as [st|cfg now|cfg now].
  - apply step_report_inv in Hstep as [Hn _].
    destruct (notifyStatusChange_check _ _ _ Hn) as [b Hb].
    destruct (notifyStatusChange_spec _ _ _ _ Hb Hn) as (_ & _ & _ & Ho' & Hm').
    split.
    { intros st' Heq Hb'. injection Heq as <-. rewrite Hb in Hb'.
      injection Hb' as ->. exact Ho'. }
    destruct b; [left; exact Ho'|].
    destruct (Z.eqb_spec (oldestAlarm s) noAlarmActive) as [Hs|Hs]; [|left; exact Ho'].
    right; left. split; [exact Hs|]. exists st. split; [reflexivity|].
    pose proof (reachable_sentinel_empty s Hr Hs) as Hempty.
    rewrite Hempty in Hm' |- *. rewrite lookup_empty in Hm' |- *.
    split; [reflexivity|]. split; [rewrite Hm'; apply lookup_insert_eq|exact Ho'].
  - split; [intros ? Heq; discriminate|].
    simpl in Hstep. injection Hstep as Hs'.
    destruct (checkStatusMap_fields cfg now s) as (_ & _ & _ & Ho' & _).
    rewrite Hs' in Ho'. simpl in Ho'.
    destruct (Nat.eqb (size (statusmap s)) 0 && negb (Z.eqb (oldestAlarm s) noAlarmActive))
      eqn:Hc; [|left; exact Ho'].
    right; right. exists cfg, now. split; [reflexivity|]. split; [|exact Ho'].
    apply andb_prop in Hc as [Hz _]. apply Nat.eqb_eq, map_size_empty_inv in Hz.
    exact Hz.
  - split; [intros ? Heq; discriminate|].
    simpl in Hstep. injection Hstep as Hs'.
    destruct (operateFlashLight_fields cfg now s) as (_ & _ & _ & Ho').
    rewrite Hs' in Ho'. left. exact Ho'.
Qed.

Definition report_pv1_MAJOR : AlarmStatusEntry :=
  newAlarmStatusEntry "pv1" "MAJOR" "ALARM" 5.

Lemma oldestAlarm_step_witness :
  reachable freshConnector
  /\ step (Report report_pv1_MAJOR) freshConnector
     = Ok (with_oldestAlarm (with_statusmap freshConnector {[ "pv1" := report_pv1_MAJOR ]}) 5, [])
  /\ ((forall st, Report report_pv1_MAJOR = Report st ->
        checkSeverityString st.(severity) = Ok true ->
        5%Z = freshConnector.(oldestAlarm))
      /\ (5%Z = freshConnector.(oldestAlarm)
          \/ (freshConnector.(oldestAlarm) = noAlarmActive
              /\ exists st, Report report_pv1_MAJOR = Report st
                   /\ freshConnector.(statusmap) !! st.(pvname) = None
                   /\ ({[ "pv1" := report_pv1_MAJOR ]} : gmap string AlarmStatusEntry)
                        !! st.(pvname) = Some st
                   /\ 5%Z = st.(triggertime))
          \/ (exists cfg now, Report report_pv1_MAJOR = WatcherTick cfg now
               /\ freshConnector.(statusmap) = ∅
               /\ 5%Z = noAlarmActive))).
Proof.
  assert (Hr : reachable freshConnector)
    by (apply (reachable_new false false); reflexivity).
  assert (Hs : step (Report report_pv1_MAJOR) freshConnector
     = Ok (with_oldestAlarm (with_statusmap freshConnector {[ "pv1" := report_pv1_MAJOR ]}) 5, []))
    by (vm_compute; reflexivity).
  split; [exact Hr|]. split; [exact Hs|].
  exact (oldestAlarm_step _ _ _ _ Hr Hs).
Defined.

(** Scenario D of the spec: alarms on "a" at t=0 and "b" at t=2; clearing
    "a" leaves the timestamp at 0 (not the remaining minimum 2); a watcher
    tick at t=3 keeps it, since the map is not empty. *)
Lemma scenario_D_oldestAlarm :
  (a <-- reportAll freshConnector
           [newAlarmStatusEntry "a" "MAJOR" "ALARM" 0;
            newAlarmStatusEntry "b" "MINOR" "ALARM" 2;
            newAlarmStatusEntry "a" "MAJOR_ACK" "ALARM" 3] ;;
   Ok ((fst (checkStatusMap (mkAlarmConfiguration 0 0 0) 3 a)).(oldestAlarm),
       getNumberOfAlarms a, a.(oldestAlarm)))
  = Ok (0%Z, 1%nat, 0%Z).
Proof. vm_compute. reflexivity. Qed.

(* ------------------------------------------------------------------ *)
(** ** Construction errors *)

Lemma checkSeverityString_no_logic_error (sev : string) :
  checkSeverityString sev <> Throw logic_error.
Proof.
  unfold checkSeverityString, substr.
  destruct (String.eqb sev "OK"); [discriminate|].
  destruct (Z.ltb _ _); cbn; discriminate.
Qed.

Lemma step_no_logic_error (ev : Event) (s : AlarmServerConnector) :
  step ev s <> Throw logic_error.
Proof.
  destruct ev as [st|cfg now|cfg now]; simpl; try discriminate.
  unfold notifyStatusChange.
  pose proof (checkSeverityString_no_logic_error st.(severity)) as H.
  destruct (checkSeverityString st.(severity)) as [b|e]; cbn.
  - destruct b; [destruct (_ !! _); discriminate|].
    destruct (Z.eqb _ _); discriminate.
  - intros E. injection E as ->. apply H. reflexivity.
Qed.

(** Claim C4 (counterexample): the claim has the constructor fail exactly
    when both flags are true. With both flags true it succeeds, and with
    the desktop flag false and the Beedo flag true it throws. *)
Lemma newAlarmServerConnector_claim_C4_fails :
  newAlarmServerConnector true true
    = Ok (mkAlarmServerConnector true true ∅ noAlarmActive false)
  /\ newAlarmServerConnector false true = Throw logic_error.
Proof. split; reflexivity. Qed.

(** Claim C4 (amended): the constructor throws [std::logic_error] exactly
    when the Beedo flag (second parameter) is true and the desktop flag
    (first parameter) is false; every other combination constructs the
    connector, and no later operation throws [std::logic_error]. *)
Theorem newAlarmServerConnector_throws_iff :
  (forall d bd : bool,
     newAlarmServerConnector d bd = Throw logic_error <-> bd = true /\ d = false)
  /\ (forall d bd : bool, bd = false \/ d = true ->
        newAlarmServerConnector d bd
        = Ok (mkAlarmServerConnector d bd ∅ noAlarmActive false))
  /\ (forall (ev : Event) (s : AlarmServerConnector),
        step ev s <> Throw logic_error).
Proof.
  split; [|split].
  - intros [] []; simpl; split; intros H; try discriminate;
      try (destruct H; discriminate); auto.
  - intros [] [] [H|H]; try discriminate; reflexivity.
  - exact step_no_logic_error.
Qed.

Lemma newAlarmServerConnector_throws_iff_witness :
  (false = false \/ true = true)
  /\ newAlarmServerConnector true false
     = Ok (mkAlarmServerConnector true false ∅ noAlarmActive false).
Proof.
  split; [left; reflexivity|].
  apply (proj1 (proj2 newAlarmServerConnector_throws_iff)). left. reflexivity.
Defined.

(* ------------------------------------------------------------------ *)
(** ** Updating a present record *)

(** Claim C5 (failing input): a report for a present entity whose time
    equals the record's trigger time (two messages within the same second
    of [std::time]) should overwrite severity and status; [update] tests
    [_triggertime < newdata._triggertime] and keeps the old ones. *)
Theorem update_same_second_ignored :
  update (newAlarmStatusEntry "pv1" "MAJOR" "HIHI_ALARM" 100)
         (newAlarmStatusEntry "pv1" "MINOR" "HIGH_ALARM" 100)
  = newAlarmStatusEntry "pv1" "MAJOR" "HIHI_ALARM" 100
  /\ (a <-- reportAll freshConnector
              [newAlarmStatusEntry "pv1" "MAJOR" "HIHI_ALARM" 100;
               newAlarmStatusEntry "pv1" "MINOR" "HIGH_ALARM" 100] ;;
      Ok (option_map (fun e => (severity e, status e)) (a.(statusmap) !! "pv1")))
     = Ok (Some ("MAJOR", "HIHI_ALARM")).
Proof. split; vm_compute; reflexivity. Qed.

(** With a strictly later time, the update applies the new severity and
    status. *)
Lemma update_later (e st : AlarmStatusEntry) :
  (e.(triggertime) < st.(triggertime))%Z ->
  update e st = mkAlarmStatusEntry e.(pvname) st.(severity) st.(status)
                  e.(triggertime) e.(desktopNotificationSent)
                  e.(emailNotificationSent).
Proof.
  intros H. unfold update. rewrite (proj2 (Z.ltb_lt _ _) H). reflexivity.
Qed.

(* ------------------------------------------------------------------ *)
(** ** Records across steps: identity, trigger time and one-shot flags *)

Lemma update_fields (r st : AlarmStatusEntry) :
  (update r st).(pvname) = r.(pvname)
  /\ (update r st).(triggertime) = r.(triggertime)
  /\ (update r st).(desktopNotificationSent) = r.(desktopNotificationSent)
  /\ (update r st).(emailNotificationSent) = r.(emailNotificationSent).
Proof. unfold update. destruct (Z.ltb _ _); repeat split. Qed.

Lemma desktopLoopBody_fields (cfg : AlarmConfiguration) (now : Z)
  (e : AlarmStatusEntry) :
  let e' := fst (desktopLoopBody cfg now e) in
  e'.(pvname) = e.(pvname)
  /\ e'.(triggertime) = e.(triggertime)
  /\ (e.(desktopNotificationSent) = true -> e'.(desktopNotificationSent) = true)
  /\ e'.(emailNotificationSent) = e.(emailNotificationSent).
Proof.
  unfold desktopLoopBody. destruct (Z.leb _ _); [|simpl; auto].
  destruct (desktopNotificationSent e) eqn:Hd; simpl; auto.
Qed.

Lemma emailLoopBody_fields (e : AlarmStatusEntry) :
  let e' := fst (emailLoopBody e) in
  e'.(pvname) = e.(pvname)
  /\ e'.(triggertime) = e.(triggertime)
  /\ e'.(desktopNotificationSent) = e.(desktopNotificationSent)
  /\ (e.(emailNotificationSent) = true -> e'.(emailNotificationSent) = true).
Proof.
  unfold emailLoopBody. destruct (emailNotificationSent e) eqn:He; simpl; auto.
Qed.

(** The per-record relation kept by every step: same entity, same trigger
    time, and neither one-shot flag goes from true back to false. *)
Definition keepsRecord (r r' : AlarmStatusEntry) : Prop :=
  r'.(pvname) = r.(pvname)
  /\ r'.(triggertime) = r.(triggertime)
  /\ (r.(desktopNotificationSent) = true -> r'.(desktopNotificationSent) = true)
  /\ (r.(emailNotificationSent) = true -> r'.(emailNotificationSent) = true).

Lemma step_lookup (ev : Event) (s s' : AlarmServerConnector) (eff : list Effect)
  (k : string) (r : AlarmStatusEntry) :
  step ev s = Ok (s', eff) ->
  s.(statusmap) !! k = Some r ->
  (s'.(statusmap) !! k = None
   /\ exists st, ev = Report st /\ st.(pvname) = k
                 /\ checkSeverityString st.(severity) = Ok true)
  \/ exists r', s'.(statusmap) !! k = Some r' /\ keepsRecord r r'.
Proof.
  intros Hstep Hk. destruct ev as [st|cfg now|cfg now].
  - apply step_report_inv in Hstep as [Hn _].
    destruct (notifyStatusChange_check _ _ _ Hn) as [b Hb].
    destruct (notifyStatusChange_spec _ _ _ _ Hb Hn) as (_ & _ & _ & _ & Hm').
    rewrite Hm'. destruct (String.eqb_spec st.(pvname) k) as [<-|Hne].
    + destruct b.
      * left. split; [apply lookup_delete_eq|]. exists st. auto.
      * right. rewrite Hk, lookup_insert_eq. eexists; split; [reflexivity|].
        destruct (update_fields r st) as (? & ? & ? & ?).
        unfold keepsRecord. repeat split; congruence.
    + right. exists r. split; [|unfold keepsRecord; repeat split; auto].
      destruct b.
      * rewrite lookup_delete_ne by exact Hne. exact Hk.
      * destruct (s.(statusmap) !! st.(pvname));
          rewrite lookup_insert_ne by exact Hne; exact Hk.
  - right. simpl in Hstep. injection Hstep as Hs'.
    destruct (checkStatusMap_fields cfg now s) as (_ & _ & _ & _ & Hm').
    rewrite Hs' in Hm'. simpl in Hm'.
    destruct (Hm' k) as [E|[E|[E|E]]]; rewrite E, Hk; simpl; eexists; split; try reflexivity;
      unfold keepsRecord.
    + repeat split; auto.
    + destruct (desktopLoopBody_fields cfg now r) as (? & ? & ? & ?).
      repeat split; intros; try congruence; auto.
    + destruct (emailLoopBody_fields r) as (? & ? & ? & ?).
      repeat split; intros; try congruence; auto.
    + destruct (desktopLoopBody_fields cfg now r) as (? & ? & Hd1 & ?).
      destruct (emailLoopBody_fields (fst (desktopLoopBody cfg now r))) as (? & ? & Hd2 & He2).
      repeat split; try congruence.
      * intros Hr. rewrite Hd2. auto.
      * intros Hr. apply He2. congruence.
  - right. simpl in Hstep. injection Hstep as Hs'.
    destruct (operateFlashLight_fields cfg now s) as (_ & _ & Hm' & _).
    rewrite Hs' in Hm'. simpl in Hm'. exists r. rewrite Hm'.
    unfold keepsRecord. repeat split; auto.
Qed.

(** Every record is stored under its own PV name. *)
Definition keysOk (s : AlarmServerConnector) : Prop :=
  forall k e, s.(statusmap) !! k = Some e -> e.(pvname) = k.

Lemma step_keysOk (ev : Event) (s s' : AlarmServerConnector) (eff : list Effect) :
  keysOk s -> step ev s = Ok (s', eff) -> keysOk s'.
Proof.
  intros Hok Hstep k e' Hk'. destruct ev as [st|cfg now|cfg now].
  - apply step_report_inv in Hstep as [Hn _].
    destruct (notifyStatusChange_check _ _ _ Hn) as [b Hb].
    destruct (notifyStatusChange_spec _ _ _ _ Hb Hn) as (_ & _ & _ & _ & Hm').
    rewrite Hm' in Hk'. destruct (String.eqb_spec st.(pvname) k) as [<-|Hne].
    + destruct b; [rewrite lookup_delete_eq in Hk'; discriminate|].
      destruct (s.(statusmap) !! st.(pvname)) as [r|] eqn:Er;
        rewrite lookup_insert_eq in Hk'; injection Hk' as <-; [|reflexivity].
      destruct (update_fields r st) as (-> & _). exact (Hok _ _ Er).
    + apply Hok. destruct b.
      * rewrite lookup_delete_ne in Hk' by exact Hne. exact Hk'.
      * destruct (s.(statusmap) !! st.(pvname));
          rewrite lookup_insert_ne in Hk' by exact Hne; exact Hk'.
  - simpl in Hstep. injection Hstep as Hs'.
    destruct (checkStatusMap_fields cfg now s) as (_ & _ & _ & _ & Hm').
    rewrite Hs' in Hm'. simpl in Hm'.
    destruct (s.(statusmap) !! k) as [r|] eqn:Er.
    + pose proof (Hok _ _ Er) as Hr.
      destruct (Hm' k) as [E|[E|[E|E]]]; rewrite E, Er in Hk'; simpl in Hk';
        injection Hk' as <-.
      * exact Hr.
      * destruct (desktopLoopBody_fields cfg now r) as (-> & _). exact Hr.
      * destruct (emailLoopBody_fields r) as (-> & _). exact Hr.
      * destruct (emailLoopBody_fields (fst (desktopLoopBody cfg now r))) as (-> & _).
        destruct (desktopLoopBody_fields cfg now r) as (-> & _). exact Hr.
    + destruct (Hm' k) as [E|[E|[E|E]]]; rewrite E, Er in Hk'; discriminate.
  - simpl in Hstep. injection Hstep as Hs'.
    destruct (operateFlashLight_fields cfg now s) as (_ & _ & Hm' & _).
    rewrite Hs' in Hm'. simpl in Hm'. apply Hok. rewrite <- Hm'. exact Hk'.
Qed.

Lemma reachable_keysOk (s : AlarmServerConnector) : reachable s -> keysOk s.
Proof.
  induction 1 as [d bd s Hnew|s ev s' eff Hr IH Hev Hstep].
  - unfold newAlarmServerConnector in Hnew.
    destruct (negb d && bd); [discriminate|]. injection Hnew as <-.
    intros k e Hk. simpl in Hk. rewrite lookup_empty in Hk. discriminate.
  - exact (step_keysOk _ _ _ _ IH Hstep).
Qed.

(** Claim C9: a non-cleared report for a present entity stores
    [update r st]: same PV name, trigger time and one-shot flags; severity
    and status are either kept or taken from the report. And no step ever
    turns a one-shot flag of a record that stays in the map back to
    false. *)
Theorem report_update_frame :
  (forall (s s' : AlarmServerConnector) (st r : AlarmStatusEntry) (eff : list Effect),
     step (Report st) s = Ok (s', eff) ->
     checkSeverityString st.(severity) = Ok false ->
     s.(statusmap) !! st.(pvname) = Some r ->
     s'.(statusmap) !! st.(pvname) = Some (update r st)
     /\ (update r st).(pvname) = r.(pvname)
     /\ (update r st).(triggertime) = r.(triggertime)
     /\ (update r st).(desktopNotificationSent) = r.(desktopNotificationSent)
     /\ (update r st).(emailNotificationSent) = r.(emailNotificationSent)
     /\ (update r st = r
         \/ ((update r st).(severity) = st.(severity)
             /\ (update r st).(status) = st.(status))))
  /\ (forall (ev : Event) (s s' : AlarmServerConnector) (eff : list Effect)
        (k : string) (r r' : AlarmStatusEntry),
        step ev s = Ok (s', eff) ->
        s.(statusmap) !! k = Some r -> s'.(statusmap) !! k = Some r' ->
        (r.(desktopNotificationSent) = true -> r'.(desktopNotificationSent) = true)
        /\ (r.(emailNotificationSent) = true -> r'.(emailNotificationSent) = true)).
Proof.
  split.
  - intros s s' st r eff Hstep Hb Hr.
    apply step_report_inv in Hstep as [Hn _].
    destruct (notifyStatusChange_spec _ _ _ _ Hb Hn) as (_ & _ & _ & _ & Hm').
    rewrite Hm', Hr, lookup_insert_eq.
    destruct (update_fields r st) as (? & ? & ? & ?).
    repeat split; auto.
    unfold update. destruct (Z.ltb _ _); [right|left]; auto.
  - intros ev s s' eff k r r' Hstep Hr Hr'.
    destruct (step_lookup _ _ _ _ _ _ Hstep Hr) as [[Hn _]|(r'' & Hr'' & Hkeep)];
      [congruence|].
    rewrite Hr' in Hr''. injection Hr'' as <-.
    destruct Hkeep as (_ & _ & ? & ?). auto.
Qed.

Definition state_pv1_MAJOR : AlarmServerConnector :=
  with_oldestAlarm
    (with_statusmap freshConnector
       {[ "pv1" := newAlarmStatusEntry "pv1" "MAJOR" "HIHI_ALARM" 100 ]}) 100.

Lemma report_update_frame_witness :
  let st := newAlarmStatusEntry "pv1" "MINOR" "HIGH_ALARM" 200 in
  let r := newAlarmStatusEntry "pv1" "MAJOR" "HIHI_ALARM" 100 in
  let s' := with_statusmap state_pv1_MAJOR
              (<[ "pv1" := update r st ]> state_pv1_MAJOR.(statusmap)) in
  step (Report st) state_pv1_MAJOR = Ok (s', [])
  /\ checkSeverityString st.(severity) = Ok false
  /\ state_pv1_MAJOR.(statusmap) !! st.(pvname) = Some r
  /\ (s'.(statusmap) !! st.(pvname) = Some (update r st)
      /\ (update r st).(pvname) = r.(pvname)
      /\ (update r st).(triggertime) = r.(triggertime)
      /\ (update r st).(desktopNotificationSent) = r.(desktopNotificationSent)
      /\ (update r st).(emailNotificationSent) = r.(emailNotificationSent)
      /\ (update r st = r
          \/ ((update r st).(severity) = st.(severity)
              /\ (update r st).(status) = st.(status)))).
Proof.
  intros st r s'.
  assert (H1 : step (Report st) state_pv1_MAJOR = Ok (s', [])) by (vm_compute; reflexivity).
  assert (H2 : checkSeverityString st.(severity) = Ok false) by (vm_compute; reflexivity).
  assert (H3 : state_pv1_MAJOR.(statusmap) !! st.(pvname) = Some r) by (vm_compute; reflexivity).
  split; [exact H1|]. split; [exact H2|]. split; [exact H3|].
  exact (proj1 report_update_frame state_pv1_MAJOR s' st r [] H1 H2 H3).
Defined.

(* ------------------------------------------------------------------ *)
(** ** Notification batches *)

Lemma spawn_elem (mk : list AlarmStatusEntry -> Effect)
  (batch : list AlarmStatusEntry) (x : Effect) :
  x ∈ spawn mk batch -> x = mk batch.
Proof.
  destruct batch; simpl; intros H.
  - apply not_elem_of_nil in H. contradiction.
  - apply list_elem_of_singleton in H. exact H.
Qed.

(** Every entry of a prepared desktop batch is a record of the map whose
    flag was false, copied after its flag was set. *)
Lemma prepareDesktopNotification_batch (cfg : AlarmConfiguration) (now : Z)
  (asc : AlarmServerConnector) (b : AlarmStatusEntry) :
  b ∈ snd (prepareDesktopNotification cfg now asc) ->
  exists k e, asc.(statusmap) !! k = Some e
    /\ e.(desktopNotificationSent) = false
    /\ b = setDesktopNotificationSent e true.
Proof.
  unfold prepareDesktopNotification.
  destruct (N.eqb (desktopNotificationTimeout cfg) 0); simpl.
  - intros H. apply not_elem_of_nil in H. contradiction.
  - rewrite list_elem_of_omap. intros [[k e] [Hin Hb]].
    apply elem_of_map_to_list in Hin. simpl in Hb.
    exists k, e. split; [exact Hin|]. unfold desktopLoopBody in Hb.
    destruct (Z.leb _ _); [|discriminate].
    destruct (desktopNotificationSent e); simpl in Hb; [discriminate|].
    injection Hb as <-. auto.
Qed.

Lemma checkStatusMap_reset_effects (s : AlarmServerConnector) (x : Effect) :
  x ∈ snd (checkStatusMap_reset s) -> x = BeedoStop.
Proof.
  unfold checkStatusMap_reset. destruct (_ && _); simpl; [destruct (activateBeedo s)|];
    intros H; [apply list_elem_of_singleton in H; exact H| |];
    apply not_elem_of_nil in H; contradiction.
Qed.

Lemma checkStatusMap_desktop_effects (cfg : AlarmConfiguration) (now : Z)
  (s : AlarmServerConnector) (x : Effect) :
  x ∈ snd (checkStatusMap_desktop cfg now s) ->
  x = DesktopNotification (snd (prepareDesktopNotification cfg now s)) \/ x = BeedoStart.
Proof.
  unfold checkStatusMap_desktop. destruct (_ && _); simpl.
  - destruct (prepareDesktopNotification cfg now s) as [a batch]. simpl.
    rewrite elem_of_app. intros [H|H].
    + left. exact (spawn_elem _ _ _ H).
    + right. destruct (activateBeedo s); [apply list_elem_of_singleton in H; exact H|].
      apply not_elem_of_nil in H. contradiction.
  - intros H. apply not_elem_of_nil in H. contradiction.
Qed.

Lemma checkStatusMap_email_effects (cfg : AlarmConfiguration) (now : Z)
  (s : AlarmServerConnector) (x : Effect) :
  x ∈ snd (checkStatusMap_email cfg now s) ->
  x = EMailNotification (snd (prepareEMailNotification cfg s)).
Proof.
  unfold checkStatusMap_email. destruct (_ && _); simpl.
  - destruct (prepareEMailNotification cfg s) as [a batch]. simpl.
    apply spawn_elem.
  - intros H. apply not_elem_of_nil in H. contradiction.
Qed.

(** The effects of a watcher tick, block by block. *)
Lemma checkStatusMap_effects (cfg : AlarmConfiguration) (now : Z)
  (s : AlarmServerConnector) (x : Effect) :
  x ∈ snd (checkStatusMap cfg now s) ->
  x = BeedoStop \/ x = BeedoStart
  \/ x = DesktopNotification (snd (prepareDesktopNotification cfg now (fst (checkStatusMap_reset s))))
  \/ exists a2, x ∈ snd (checkStatusMap_email cfg now a2)
                /\ a2.(desktopVersion) = s.(desktopVersion).
Proof.
  unfold checkStatusMap.
  pose proof (checkStatusMap_reset_effects s) as H1.
  pose proof (checkStatusMap_reset_fields s) as (Hd1 & _).
  destruct (checkStatusMap_reset s) as [a1 eff1]. simpl in H1, Hd1 |- *.
  pose proof (checkStatusMap_desktop_effects cfg now a1) as H2.
  assert (Hd2 : (fst (checkStatusMap_desktop cfg now a1)).(desktopVersion) = a1.(desktopVersion)).
  { destruct (checkStatusMap_desktop_fields cfg now a1) as [-> | ->]; [reflexivity|].
    apply prepareDesktopNotification_fields. }
  destruct (checkStatusMap_desktop cfg now a1) as [a2 eff2]. simpl in H2, Hd2 |- *.
  destruct (checkStatusMap_email cfg now a2) as [a3 eff3] eqn:E3. simpl.
  rewrite !elem_of_app. intros [H|[H|H]].
  - left. auto.
  - destruct (H2 _ H); auto.
  - right; right; right. exists a2. rewrite E3. split; [exact H|congruence].
Qed.

Lemma checkStatusMap_desktop_effect (cfg : AlarmConfiguration) (now : Z)
  (s : AlarmServerConnector) (batch : list AlarmStatusEntry) :
  DesktopNotification batch ∈ snd (checkStatusMap cfg now s) ->
  batch = snd (prepareDesktopNotification cfg now (fst (checkStatusMap_reset s))).
Proof.
  intros H. destruct (checkStatusMap_effects _ _ _ _ H) as [E|[E|[E|[a2 [E _]]]]];
    try discriminate E.
  - injection E as ->. reflexivity.
  - apply checkStatusMap_email_effects in E. discriminate E.
Qed.

Lemma operateFlashLight_effects (cfg : AlarmConfiguration) (now : Z)
  (s : AlarmServerConnector) (x : Effect) :
  x ∈ snd (operateFlashLight cfg now s) -> x = FlashLightOn \/ x = FlashLightOff.
Proof.
  unfold operateFlashLight, switchFlashLightOn, switchFlashLightOff.
  destruct (desktopVersion s); [simpl; intros H; apply not_elem_of_nil in H; contradiction|].
  repeat (match goal with |- context [if ?c then _ else _] => destruct c end; simpl);
    rewrite ?elem_of_app, ?list_elem_of_singleton; intros H;
    repeat match goal with
    | H : _ \/ _ |- _ => destruct H as [H|H]
    | H : _ ∈ [] |- _ => apply not_elem_of_nil in H; contradiction
    | H : _ ∈ _ :: _ |- _ => apply elem_of_cons in H
    end; auto.
Qed.

(** The desktop batches a step produces hold only copies of records of
    the map before the step whose desktop flag was false. *)
Lemma step_desktop_batch (ev : Event) (s s' : AlarmServerConnector)
  (eff : list Effect) (batch : list AlarmStatusEntry) (b : AlarmStatusEntry) :
  step ev s = Ok (s', eff) ->
  DesktopNotification batch ∈ eff -> b ∈ batch ->
  exists k e, s.(statusmap) !! k = Some e
    /\ e.(desktopNotificationSent) = false
    /\ b = setDesktopNotificationSent e true.
Proof.
  intros Hstep Hin Hb. destruct ev as [st|cfg now|cfg now].
  - apply step_report_inv in Hstep as [_ ->]. apply not_elem_of_nil in Hin. contradiction.
  - simpl in Hstep. injection Hstep as Hs'.
    assert (Hin' : DesktopNotification batch ∈ snd (checkStatusMap cfg now s))
      by (rewrite Hs'; exact Hin).
    apply checkStatusMap_desktop_effect in Hin' as ->.
    destruct (prepareDesktopNotification_batch _ _ _ _ Hb) as (k & e & Hk & ?).
    exists k, e. split; [|auto].
    destruct (checkStatusMap_reset_fields s) as (_ & _ & _ & <- & _). exact Hk.
  - simpl in Hstep. injection Hstep as Hs'.
    assert (Hin' : DesktopNotification batch ∈ snd (operateFlashLight cfg now s))
      by (rewrite Hs'; exact Hin).
    destruct (operateFlashLight_effects _ _ _ _ Hin'); discriminate.
Qed.

(** Claim C6: setting the desktop flag twice leaves it true (and is the
    same as setting it once); and once a record's desktop flag is true,
    no desktop batch produced by any later run of events contains its
    entity, for as long as no cleared report removes the record. *)
Theorem desktop_flag_idempotent :
  (forall e : AlarmStatusEntry,
     setDesktopNotificationSent (setDesktopNotificationSent e true) true
       = setDesktopNotificationSent e true
     /\ (setDesktopNotificationSent (setDesktopNotificationSent e true) true)
          .(desktopNotificationSent) = true)
  /\ (forall (evs : list Event) (s : AlarmServerConnector) (k : string)
        (e : AlarmStatusEntry),
        reachable s ->
        s.(statusmap) !! k = Some e -> e.(desktopNotificationSent) = true ->
        (forall st, Report st ∈ evs -> st.(pvname) = k ->
           checkSeverityString st.(severity) <> Ok true) ->
        forall batch b, DesktopNotification batch ∈ snd (run evs s) -> b ∈ batch ->
        b.(pvname) <> k).
Proof.
  split; [intros e; split; reflexivity|].
  intros evs s k e Hr. apply reachable_keysOk in Hr. revert s e Hr.
  induction evs as [|ev evs IH]; intros s e Hok Hk Hd Hno batch b Hin Hb.
  - simpl in Hin. apply not_elem_of_nil in Hin. contradiction.
  - simpl in Hin. destruct (step ev s) as [[s' eff]|ex] eqn:Hstep;
      [|apply not_elem_of_nil in Hin; contradiction].
    destruct (run evs s') as [a effs] eqn:Er. simpl in Hin.
    apply elem_of_app in Hin as [Hin|Hin].
    + destruct (step_desktop_batch _ _ _ _ _ _ Hstep Hin Hb) as (k' & e' & Hk' & Hf & ->).
      simpl. rewrite (Hok _ _ Hk'). intros ->. congruence.
    + destruct (step_lookup _ _ _ _ _ _ Hstep Hk) as [[_ (st & -> & Hpv & Hc)]|(e' & Hk' & Hkeep)].
      * exfalso. apply (Hno st); [apply elem_of_cons; left; reflexivity|exact Hpv|exact Hc].
      * destruct Hkeep as (_ & _ & Hd' & _).
        apply (IH s' e' (step_keysOk _ _ _ _ Hok Hstep) Hk' (Hd' Hd)) with batch;
          [|rewrite Er; exact Hin|exact Hb].
        intros st Hst. apply Hno. apply elem_of_cons. right. exact Hst.
Qed.

Definition cfg_desktop5 : AlarmConfiguration := mkAlarmConfiguration 0 5 0.

Definition report_pv1_at0 : AlarmStatusEntry :=
  newAlarmStatusEntry "pv1" "MAJOR" "ALARM" 0.

Definition state_reported : AlarmServerConnector :=
  with_oldestAlarm (with_statusmap freshConnector {[ "pv1" := report_pv1_at0 ]}) 0.

(** After a watcher tick at t=10 with a 5 s desktop timeout. *)
Definition state_marked : AlarmServerConnector :=
  fst (checkStatusMap cfg_desktop5 10 state_reported).

Lemma reachable_state_marked : reachable state_marked.
Proof.
  apply (reachable_step state_reported (WatcherTick cfg_desktop5 10) _
           (snd (checkStatusMap cfg_desktop5 10 state_reported))).
  - apply (reachable_step freshConnector (Report report_pv1_at0) _ []).
    + apply (reachable_new false false). reflexivity.
    + simpl. unfold noAlarmActive. lia.
    + vm_compute. reflexivity.
  - exact I.
  - reflexivity.
Qed.

Lemma desktop_flag_idempotent_witness :
  reachable state_marked
  /\ state_marked.(statusmap) !! "pv1" = Some (setDesktopNotificationSent report_pv1_at0 true)
  /\ (setDesktopNotificationSent report_pv1_at0 true).(desktopNotificationSent) = true
  /\ (forall batch b,
        DesktopNotification batch
          ∈ snd (run [WatcherTick cfg_desktop5 20; FlashLightTick cfg_desktop5 20] state_marked) ->
        b ∈ batch -> b.(pvname) <> "pv1").
Proof.
  assert (Hk : state_marked.(statusmap) !! "pv1"
               = Some (setDesktopNotificationSent report_pv1_at0 true))
    by (vm_compute; reflexivity).
  split; [exact reachable_state_marked|]. split; [exact Hk|]. split; [reflexivity|].
  apply (proj2 desktop_flag_idempotent _ state_marked "pv1" _ reachable_state_marked Hk
           eq_refl).
  intros st Hst. apply elem_of_cons in Hst as [Hst|Hst]; [discriminate|].
  apply list_elem_of_singleton in Hst. discriminate.
Defined.

(** Scenario B of the spec: desktop timeout 5 s, "pv2" reported at t=0;
    a tick at t=4 prepares no batch, a tick at t=6 prepares a batch with
    "pv2", and a further tick at t=7 prepares none. *)
Lemma scenario_B_desktop :
  let s0 := freshConnector in
  match notifyStatusChange s0 (newAlarmStatusEntry "pv2" "MAJOR" "ALARM" 0) with
  | Ok s1 =>
      let '(s2, eff4) := checkStatusMap cfg_desktop5 4 s1 in
      let '(s3, eff6) := checkStatusMap cfg_desktop5 6 s2 in
      let '(_, eff7) := checkStatusMap cfg_desktop5 7 s3 in
      eff4 = [] /\ map pvname (snd (prepareDesktopNotification cfg_desktop5 6 s2)) = ["pv2"]
      /\ length eff6 = 1%nat /\ eff7 = []
  | Throw _ => False
  end.
Proof. vm_compute. repeat split. Qed.

(* ------------------------------------------------------------------ *)
(** ** E-mail batches *)

(** Claim C7: in server mode with a non-zero e-mail timeout, once the
    set-level test of [checkStatusMap] has passed, the e-mail block hands
    over exactly the batch of [prepareEMailNotification]; that batch holds
    exactly the records whose e-mail flag was false (copied with the flag
    set), every one of them is marked in the map, and no per-record
    trigger time is consulted. *)
Theorem prepareEMailNotification_unsent (cfg : AlarmConfiguration) (now : Z)
  (s : AlarmServerConnector) :
  s.(desktopVersion) = false ->
  cfg.(eMailNotificationTimeout) <> 0%N ->
  size s.(statusmap) <> 0%nat ->
  (s.(oldestAlarm) + Z.of_N cfg.(eMailNotificationTimeout) <= now)%Z ->
  checkStatusMap_email cfg now s
    = (fst (prepareEMailNotification cfg s),
       spawn EMailNotification (snd (prepareEMailNotification cfg s)))
  /\ (forall b, b ∈ snd (prepareEMailNotification cfg s) <->
        exists k e, s.(statusmap) !! k = Some e
          /\ e.(emailNotificationSent) = false
          /\ b = setEmailNotificationSent e true)
  /\ (forall k, (fst (prepareEMailNotification cfg s)).(statusmap) !! k
        = (fun e => if e.(emailNotificationSent) then e
                    else setEmailNotificationSent e true) <$> s.(statusmap) !! k).
Proof.
  intros Hd Ht Hsz Hnow.
  assert (Hp : prepareEMailNotification cfg s
    = (with_statusmap s ((fun e => fst (emailLoopBody e)) <$> s.(statusmap)),
       omap (fun ke => snd (emailLoopBody ke.2)) (map_to_list s.(statusmap)))).
  { unfold prepareEMailNotification. rewrite Hd.
    apply N.eqb_neq in Ht. rewrite Ht. reflexivity. }
  split; [|split].
  - unfold checkStatusMap_email.
    apply Nat.eqb_neq in Hsz. apply Z.leb_le in Hnow. rewrite Hsz, Hnow. simpl.
    destruct (prepareEMailNotification cfg s). reflexivity.
  - intros b. rewrite Hp. simpl. rewrite list_elem_of_omap. split.
    + intros [[k e] [Hin Hb]]. apply elem_of_map_to_list in Hin. simpl in Hb.
      exists k, e. split; [exact Hin|]. unfold emailLoopBody in Hb.
      destruct (emailNotificationSent e); simpl in Hb; [discriminate|].
      injection Hb as <-. auto.
    + intros (k & e & Hin & Hf & ->). exists (k, e).
      split; [apply elem_of_map_to_list; exact Hin|].
      simpl. unfold emailLoopBody. rewrite Hf. reflexivity.
  - intros k. rewrite Hp. simpl. rewrite lookup_fmap.
    destruct (s.(statusmap) !! k) as [e|]; [|reflexivity].
    simpl. unfold emailLoopBody. destruct (emailNotificationSent e); reflexivity.
Qed.

Definition cfg_email5 : AlarmConfiguration := mkAlarmConfiguration 0 0 5.

Lemma prepareEMailNotification_unsent_witness :
  state_reported.(desktopVersion) = false
  /\ cfg_email5.(eMailNotificationTimeout) <> 0%N
  /\ size state_reported.(statusmap) <> 0%nat
  /\ (state_reported.(oldestAlarm) + Z.of_N cfg_email5.(eMailNotificationTimeout) <= 10)%Z
  /\ checkStatusMap_email cfg_email5 10 state_reported
       = (fst (prepareEMailNotification cfg_email5 state_reported),
          spawn EMailNotification (snd (prepareEMailNotification cfg_email5 state_reported))).
Proof.
  assert (H1 : state_reported.(desktopVersion) = false) by reflexivity.
  assert (H2 : cfg_email5.(eMailNotificationTimeout) <> 0%N) by discriminate.
  assert (H3 : size state_reported.(statusmap) <> 0%nat) by (vm_compute; discriminate).
  assert (H4 : (state_reported.(oldestAlarm)
                + Z.of_N cfg_email5.(eMailNotificationTimeout) <= 10)%Z)
    by (vm_compute; discriminate).
  split; [exact H1|]. split; [exact H2|]. split; [exact H3|]. split; [exact H4|].
  exact (proj1 (prepareEMailNotification_unsent cfg_email5 10 state_reported H1 H2 H3 H4)).
Defined.

(** The connector's mode never changes. *)
Lemma step_desktopVersion (ev : Event) (s s' : AlarmServerConnector)
  (eff : list Effect) :
  step ev s = Ok (s', eff) -> s'.(desktopVersion) = s.(desktopVersion).
Proof.
  intros Hstep. destruct ev as [st|cfg now|cfg now].
  - apply step_report_inv in Hstep as [Hn _].
    destruct (notifyStatusChange_check _ _ _ Hn) as [b Hb].
    exact (proj1 (notifyStatusChange_spec _ _ _ _ Hb Hn)).
  - simpl in Hstep. injection Hstep as Hs'.
    pose proof (proj1 (checkStatusMap_fields cfg now s)) as H.
    rewrite Hs' in H. exact H.
  - simpl in Hstep. injection Hstep as Hs'.
    pose proof (proj1 (operateFlashLight_fields cfg now s)) as H.
    rewrite Hs' in H. exact H.
Qed.

Lemma checkStatusMap_email_desktop (cfg : AlarmConfiguration) (now : Z)
  (s : AlarmServerConnector) (x : Effect) :
  s.(desktopVersion) = true -> x ∉ snd (checkStatusMap_email cfg now s).
Proof.
  intros Hd. unfold checkStatusMap_email, prepareEMailNotification. rewrite Hd.
  destruct (_ && _); simpl; apply not_elem_of_nil.
Qed.

(** Claim C10: in desktop mode [prepareEMailNotification] changes nothing
    and returns an empty batch, for every map, configuration and time; a
    watcher tick therefore never spawns an e-mail thread, and neither does
    any run of events from a desktop-mode connector. *)
Theorem desktop_no_email :
  (forall (cfg : AlarmConfiguration) (s : AlarmServerConnector),
     s.(desktopVersion) = true -> prepareEMailNotification cfg s = (s, []))
  /\ (forall (cfg : AlarmConfiguration) (now : Z) (s : AlarmServerConnector)
        (batch : list AlarmStatusEntry),
        s.(desktopVersion) = true ->
        EMailNotification batch ∉ snd (checkStatusMap cfg now s))
  /\ (forall (evs : list Event) (s : AlarmServerConnector)
        (batch : list AlarmStatusEntry),
        s.(desktopVersion) = true ->
        EMailNotification batch ∉ snd (run evs s)).
Proof.
  assert (Htick : forall cfg now s batch, s.(desktopVersion) = true ->
            EMailNotification batch ∉ snd (checkStatusMap cfg now s)).
  { intros cfg now s batch Hd H.
    destruct (checkStatusMap_effects _ _ _ _ H) as [E|[E|[E|[a2 [E Ha2]]]]];
      try discriminate E.
    apply (checkStatusMap_email_desktop cfg now a2 (EMailNotification batch)); [congruence|exact E]. }
  split; [|split; [exact Htick|]].
  - intros cfg s Hd. unfold prepareEMailNotification. rewrite Hd. reflexivity.
  - induction evs as [|ev evs IH]; intros s batch Hd Hin.
    + apply not_elem_of_nil in Hin. exact Hin.
    + simpl in Hin. destruct (step ev s) as [[s' eff]|ex] eqn:Hstep;
        [|apply not_elem_of_nil in Hin; exact Hin].
      destruct (run evs s') as [a effs] eqn:Er. simpl in Hin.
      apply elem_of_app in Hin as [Hin|Hin].
      * destruct ev as [st|cfg now|cfg now].
        -- apply step_report_inv in Hstep as [_ ->].
           apply not_elem_of_nil in Hin. exact Hin.
        -- simpl in Hstep. injection Hstep as Hs'.
           apply (Htick cfg now s batch Hd). rewrite Hs'. exact Hin.
        -- simpl in Hstep. injection Hstep as Hs'.
           assert (Hin' : EMailNotification batch ∈ snd (operateFlashLight cfg now s))
             by (rewrite Hs'; exact Hin).
           destruct (operateFlashLight_effects _ _ _ _ Hin'); discriminate.
      * apply (IH s' batch).
        -- rewrite (step_desktopVersion _ _ _ _ Hstep). exact Hd.
        -- rewrite Er. exact Hin.
Qed.

Definition desktopConnector : AlarmServerConnector :=
  mkAlarmServerConnector true false
    {[ "pv1" := report_pv1_at0 ]} 0 false.

Lemma desktop_no_email_witness :
  desktopConnector.(desktopVersion) = true
  /\ prepareEMailNotification cfg_email5 desktopConnector = (desktopConnector, [])
  /\ (forall batch, EMailNotification batch ∉ snd (checkStatusMap cfg_email5 100 desktopConnector)).
Proof.
  assert (Hd : desktopConnector.(desktopVersion) = true) by reflexivity.
  split; [exact Hd|]. split.
  - exact (proj1 desktop_no_email cfg_email5 desktopConnector Hd).
  - intros batch. exact (proj1 (proj2 desktop_no_email) cfg_email5 100%Z desktopConnector batch Hd).
Defined.

(* ------------------------------------------------------------------ *)
(** ** The laboratory flash light *)

(** With a laboratory timeout of 0, both switches return at once, so an
    iteration of the flash-light loop changes nothing and does nothing. *)
Lemma operateFlashLight_lab0 (cfg : AlarmConfiguration) (now : Z)
  (s : AlarmServerConnector) :
  cfg.(laboratoryNotificationTimeout) = 0%N ->
  operateFlashLight cfg now s = (s, []).
Proof.
  intros H0. unfold operateFlashLight, switchFlashLightOn, switchFlashLightOff.
  rewrite H0. simpl.
  destruct (desktopVersion s); [reflexivity|].
  destruct (negb (flashlighton s) && _ && _); simpl;
    destruct (flashlighton s && _); reflexivity.
Qed.

Lemma step_flashlighton (ev : Event) (s s' : AlarmServerConnector)
  (eff : list Effect) :
  (forall cfg now, ev = FlashLightTick cfg now -> cfg.(laboratoryNotificationTimeout) = 0%N) ->
  step ev s = Ok (s', eff) ->
  s'.(flashlighton) = s.(flashlighton) /\ (FlashLightOn ∉ eff).
Proof.
  intros Hlab Hstep. destruct ev as [st|cfg now|cfg now].
  - apply step_report_inv in Hstep as [Hn ->].
    destruct (notifyStatusChange_check _ _ _ Hn) as [b Hb].
    destruct (notifyStatusChange_spec _ _ _ _ Hb Hn) as (_ & _ & Hl & _).
    split; [exact Hl|apply not_elem_of_nil].
  - simpl in Hstep. injection Hstep as Hs'.
    destruct (checkStatusMap_fields cfg now s) as (_ & _ & Hl & _).
    rewrite Hs' in Hl. split; [exact Hl|].
    intros Hin. assert (Hin' : FlashLightOn ∈ snd (checkStatusMap cfg now s))
      by (rewrite Hs'; exact Hin).
    destruct (checkStatusMap_effects _ _ _ _ Hin') as [E|[E|[E|[a2 [E _]]]]];
      try discriminate E.
    apply checkStatusMap_email_effects in E. discriminate E.
  - simpl in Hstep. rewrite operateFlashLight_lab0 in Hstep by (apply (Hlab cfg now); reflexivity).
    injection Hstep as <- <-. split; [reflexivity|apply not_elem_of_nil].
Qed.

(** Claim C8: if every flash-light tick sees a laboratory timeout of 0,
    then, from a connector whose flash light is off (as constructed), no
    run of events ever switches the flash light on, and its state flag
    stays false, whatever the alarms and the times. *)
Theorem flashlight_never_on_lab0 (evs : list Event) (s : AlarmServerConnector) :
  (forall cfg now, FlashLightTick cfg now ∈ evs ->
     cfg.(laboratoryNotificationTimeout) = 0%N) ->
  s.(flashlighton) = false ->
  (FlashLightOn ∉ snd (run evs s)) /\ (fst (run evs s)).(flashlighton) = false.
Proof.
  revert s. induction evs as [|ev evs IH]; intros s Hlab Hoff.
  - simpl. split; [apply not_elem_of_nil|exact Hoff].
  - simpl. destruct (step ev s) as [[s' eff]|ex] eqn:Hstep;
      [|simpl; split; [apply not_elem_of_nil|exact Hoff]].
    destruct (step_flashlighton ev s s' eff) as [Hl Hnot]; [|exact Hstep|].
    { intros cfg now ->. apply (Hlab cfg now). apply elem_of_cons. left. reflexivity. }
    destruct (IH s') as [Hnot' Hoff'].
    { intros cfg now Hin. apply (Hlab cfg now). apply elem_of_cons. right. exact Hin. }
    { congruence. }
    destruct (run evs s') as [a effs]. simpl in *.
    split; [|exact Hoff'].
    rewrite elem_of_app. intros [H|H]; contradiction.
Qed.

Definition cfg_lab0 : AlarmConfiguration := mkAlarmConfiguration 0 5 5.

Lemma flashlight_never_on_lab0_witness :
  (forall cfg now, FlashLightTick cfg now
     ∈ [Report report_pv1_at0; FlashLightTick cfg_lab0 1000; WatcherTick cfg_lab0 1000;
        FlashLightTick cfg_lab0 100000] ->
     cfg.(laboratoryNotificationTimeout) = 0%N)
  /\ freshConnector.(flashlighton) = false
  /\ (FlashLightOn ∉ snd (run [Report report_pv1_at0; FlashLightTick cfg_lab0 1000;
                              WatcherTick cfg_lab0 1000; FlashLightTick cfg_lab0 100000]
                             freshConnector))
  /\ (fst (run [Report report_pv1_at0; FlashLightTick cfg_lab0 1000;
                WatcherTick cfg_lab0 1000; FlashLightTick cfg_lab0 100000]
               freshConnector)).(flashlighton) = false.
Proof.
  assert (Hlab : forall cfg now, FlashLightTick cfg now
     ∈ [Report report_pv1_at0; FlashLightTick cfg_lab0 1000; WatcherTick cfg_lab0 1000;
        FlashLightTick cfg_lab0 100000] ->
     cfg.(laboratoryNotificationTimeout) = 0%N).
  { intros cfg now Hin.
    repeat (apply elem_of_cons in Hin as [Hin|Hin]; [try discriminate Hin;
            injection Hin as -> _; reflexivity|]).
    apply not_elem_of_nil in Hin. contradiction. }
  split; [exact Hlab|]. split; [reflexivity|].
  exact (flashlight_never_on_lab0 _ freshConnector Hlab eq_refl).
Defined.

(* ================================================================== *)
(** * Further properties of the program *)


(** A sequence of [update] calls leaves the PV name, the trigger time and both notification flags of the entry alone; severity and status come from the last update whose trigger time is later than the entry's own, and without one the entry is unchanged. *)
Theorem update_fold_last_newer (r : AlarmStatusEntry) (sts : list AlarmStatusEntry) :
  fold_left update sts r =
  match last (List.filter (fun st => Z.ltb r.(triggertime) st.(triggertime)) sts) with
  | None => r
  | Some st => mkAlarmStatusEntry r.(pvname) st.(severity) st.(status)
                 r.(triggertime) r.(desktopNotificationSent) r.(emailNotificationSent)
  end.
Proof.
  induction sts as [|x sts IH] using rev_ind; [reflexivity|].
  rewrite fold_left_app, IH, List.filter_app. simpl.
  destruct (Z.ltb (triggertime r) (triggertime x)) eqn:H.
  - rewrite last_snoc.
    destruct (last _); unfold update; simpl; rewrite H; reflexivity.
  - rewrite app_nil_r.
    destruct (last _); unfold update; simpl; rewrite H; reflexivity.
Qed.

Lemma string_app_cons (x : ascii) (a b : string) :
  String x a ++ b = String x (a ++ b).
Proof. reflexivity. Qed.

Lemma string_app_nil_l (b : string) : "" ++ b = b.
Proof. reflexivity. Qed.

Lemma string_app_assoc (a b c : string) : (a ++ b) ++ c = a ++ (b ++ c).
Proof.
  induction a as [|x a IH]; [reflexivity|].
  rewrite !string_app_cons, IH. reflexivity.
Qed.

Lemma string_app_nil_r (a : string) : a ++ "" = a.
Proof. induction a as [|x a IH]; [reflexivity|rewrite string_app_cons, IH; reflexivity]. Qed.

Lemma countChar_app (c : ascii) (a b : string) :
  countChar c (a ++ b) = (countChar c a + countChar c b)%nat.
Proof.
  induction a as [|x a IH]; [reflexivity|].
  rewrite string_app_cons. simpl. rewrite IH. lia.
Qed.

Lemma splitLines_app_line (a b : string) :
  countChar newline a = 0%nat ->
  splitLines (a ++ String newline b) = a :: splitLines b.
Proof.
  induction a as [|c a IH]; intros H; [reflexivity|].
  rewrite string_app_cons. cbn [countChar] in H. cbn [splitLines].
  destruct (Ascii.eqb newline c) eqn:Hc; [lia|].
  assert (Hc' : Ascii.eqb c newline = false).
  { destruct (Ascii.eqb_spec c newline) as [->|]; [|reflexivity].
    rewrite Ascii.eqb_refl in Hc. discriminate. }
  rewrite Hc', IH by lia. reflexivity.
Qed.

(** The lines a batch adds to a notification text. *)

Lemma fold_pvBlock (alarm : list AlarmStatusEntry) (init : string) :
  fold_left (fun acc e => acc ++ (e.(pvname) ++ nl)) alarm init = init ++ pvBlock alarm.
Proof.
  revert init. induction alarm as [|e alarm IH]; intros init; simpl.
  - now rewrite string_app_nil_r.
  - rewrite IH, !string_app_assoc. reflexivity.
Qed.

Lemma splitLines_pvBlock (alarm : list AlarmStatusEntry) (rest : string) :
  Forall (fun e => countChar newline e.(pvname) = 0%nat) alarm ->
  splitLines (pvBlock alarm ++ rest) = (map pvname alarm ++ splitLines rest)%list.
Proof.
  induction alarm as [|e alarm IH]; intros Hall; [reflexivity|].
  apply Forall_cons in Hall as [He Hall].
  change (pvBlock (e :: alarm)) with (e.(pvname) ++ (nl ++ pvBlock alarm)).
  rewrite !string_app_assoc. unfold nl.
  rewrite (string_app_cons newline ""), string_app_nil_l.
  rewrite splitLines_app_line by exact He.
  rewrite IH by exact Hall. reflexivity.
Qed.

Lemma countChar_pvBlock (c : ascii) (alarm : list AlarmStatusEntry) :
  countChar c (pvBlock alarm)
  = (sum_list (map (fun e => countChar c e.(pvname)) alarm)
     + length alarm * (if Ascii.eqb c newline then 1 else 0))%nat.
Proof.
  induction alarm as [|e alarm IH]; [reflexivity|].
  change (pvBlock (e :: alarm)) with (e.(pvname) ++ (nl ++ pvBlock alarm)).
  rewrite !countChar_app, IH. unfold nl. cbn [countChar map sum_list length].
  unfold id. destruct (Ascii.eqb c newline); lia.
Qed.

(** The text of a desktop notification is the heading line followed by one line per alarm, holding its PV name, and ends with a newline (when no PV name contains a newline). *)
Theorem desktopAlarmText_lines (alarm : list AlarmStatusEntry) :
  Forall (fun e => countChar newline e.(pvname) = 0%nat) alarm ->
  splitLines (desktopAlarmText alarm)
  = ("Alarm on this/these PV(s):" :: map pvname alarm ++ [""])%list.
Proof.
  intros Hall. unfold desktopAlarmText. rewrite fold_pvBlock.
  rewrite string_app_assoc. unfold nl.
  rewrite (string_app_cons newline ""), string_app_nil_l.
  rewrite splitLines_app_line by reflexivity.
  rewrite <- (string_app_nil_r (pvBlock alarm)).
  rewrite splitLines_pvBlock by exact Hall. reflexivity.
Qed.

(** Lines joined with newlines, each one ended by a newline. *)

Lemma splitLines_linesBlock (ls : list string) (rest : string) :
  Forall (fun l => countChar newline l = 0%nat) ls ->
  splitLines (linesBlock ls ++ rest) = (ls ++ splitLines rest)%list.
Proof.
  induction ls as [|l ls IH]; intros Hall; [reflexivity|].
  apply Forall_cons in Hall as [Hl Hall].
  change (linesBlock (l :: ls)) with (l ++ String newline (linesBlock ls)).
  rewrite string_app_assoc, string_app_cons, splitLines_app_line by exact Hl.
  rewrite IH by exact Hall. reflexivity.
Qed.

(** The body of the alarm e-mail is the greeting, the introductory line, one line per alarm with its PV name, and the closing lines, in this order (when no PV name contains a newline). *)
Theorem composeMessageText_lines (alarms : list AlarmStatusEntry) :
  Forall (fun e => countChar newline e.(pvname) = 0%nat) alarms ->
  splitLines (composeMessageText alarms)
  = (["Hello,"; ""; "the following PV(s) triggered an alarm:"; ""]
     ++ map pvname alarms
     ++ [""; "Please remember to acknowledge the alarms if you go solving the problem.";
         ""; ""; "Your Alarm Notification Service"; ""])%list.
Proof.
  intros Hall. unfold composeMessageText. rewrite fold_pvBlock.
  change ("" ++ ("Hello," ++ nl ++ nl ++ "the following PV(s) triggered an alarm:" ++ nl ++ nl))
    with (linesBlock ["Hello,"; ""; "the following PV(s) triggered an alarm:"; ""]).
  change (nl ++ "Please remember to acknowledge the alarms if you go solving the problem."
           ++ nl ++ nl ++ nl ++ "Your Alarm Notification Service" ++ nl)
    with (linesBlock [""; "Please remember to acknowledge the alarms if you go solving the problem.";
                      ""; ""; "Your Alarm Notification Service"]).
  rewrite string_app_assoc, splitLines_linesBlock by (repeat constructor).
  rewrite splitLines_pvBlock by exact Hall.
  rewrite <- (string_app_nil_r (linesBlock _)).
  rewrite splitLines_linesBlock by (repeat constructor). reflexivity.
Qed.

(** The [notify-send] shell command holds four single quotes plus those in the PV names; it holds exactly four, so that the text is a single quoted argument, only when no PV name contains a single quote. *)
Theorem desktopNotifyCommand_quotes (alarm : list AlarmStatusEntry) :
  countChar "'"%char (desktopNotifyCommand alarm)
  = (4 + sum_list (map (fun e => countChar "'"%char e.(pvname)) alarm))%nat
  /\ (countChar "'"%char (desktopNotifyCommand alarm) = 4%nat
      <-> Forall (fun e => countChar "'"%char e.(pvname) = 0%nat) alarm).
Proof.
  assert (Hc : countChar "'"%char (desktopNotifyCommand alarm)
               = (4 + sum_list (map (fun e => countChar "'"%char e.(pvname)) alarm))%nat).
  { unfold desktopNotifyCommand, desktopAlarmText. rewrite fold_pvBlock.
    rewrite !countChar_app, countChar_pvBlock. simpl. lia. }
  split; [exact Hc|]. rewrite Hc.
  clear Hc. induction alarm as [|e alarm IH]; simpl.
  - split; [constructor|reflexivity].
  - rewrite Forall_cons. split.
    + intros H. split; [lia|]. apply IH. lia.
    + intros [H1 H2]. apply IH in H2. lia.
Qed.

Lemma string_length_app (a b : string) :
  String.length (a ++ b) = (String.length a + String.length b)%nat.
Proof. induction a as [|x a IH]; [reflexivity|rewrite string_app_cons; simpl; lia]. Qed.

Lemma substring_app_prefix (a t : string) :
  String.substring 0 (String.length a) (a ++ t) = a.
Proof.
  induction a as [|x a IH]; [destruct t; reflexivity|].
  rewrite string_app_cons. simpl. now rewrite IH.
Qed.

Lemma substring_app_skip (a t : string) (k m : nat) :
  String.substring (String.length a + k) m (a ++ t) = String.substring k m t.
Proof. induction a as [|x a IH]; [reflexivity|rewrite string_app_cons; simpl; exact IH]. Qed.

Lemma substring_all (s : string) : String.substring 0 (String.length s) s = s.
Proof. induction s as [|x s IH]; [reflexivity|simpl; now rewrite IH]. Qed.

Lemma prefix_app (p t : string) : String.prefix p (p ++ t) = true.
Proof.
  induction p as [|x p IH]; [destruct t; reflexivity|].
  rewrite string_app_cons. simpl. destruct (ascii_dec x x); [exact IH|congruence].
Qed.

Lemma prefix_nil (s : string) : String.prefix "" s = true.
Proof. destruct s; reflexivity. Qed.

Lemma prefix_true (p s : string) : String.prefix p s = true -> exists r, s = p ++ r.
Proof.
  revert s. induction p as [|x p IH]; intros s H; [exists s; reflexivity|].
  destruct s as [|y s]; [discriminate|]. simpl in H.
  destruct (ascii_dec x y) as [<-|]; [|discriminate].
  destruct (IH s H) as [r ->]. exists r. reflexivity.
Qed.

Lemma find_from_absent (s pat : string) (i : nat) :
  (forall a b, s <> a ++ pat ++ b) -> find_from s pat i = None.
Proof.
  revert i. induction s as [|c s IH]; intros i H; cbn [find_from].
  - destruct (String.prefix pat "") eqn:Hp; [|reflexivity].
    destruct (prefix_true _ _ Hp) as [r Hr]. exfalso. apply (H "" r). exact Hr.
  - destruct (String.prefix pat (String c s)) eqn:Hp.
    + destruct (prefix_true _ _ Hp) as [r Hr]. exfalso. apply (H "" r). exact Hr.
    + apply IH. intros a b E. apply (H (String c a) b). rewrite E. reflexivity.
Qed.

Lemma find_from_char (c : ascii) (a b : string) (i : nat) :
  countChar c a = 0%nat ->
  find_from (a ++ String c b) (String c "") i = Some (i + String.length a)%nat.
Proof.
  revert i. induction a as [|x a IH]; intros i H.
  - rewrite string_app_nil_l. simpl. destruct (ascii_dec c c); [rewrite prefix_nil; f_equal; lia|congruence].
  - rewrite string_app_cons. cbn [countChar] in H.
    destruct (Ascii.eqb_spec c x) as [Hx|Hx]; [lia|].
    simpl. destruct (ascii_dec c x); [congruence|].
    rewrite IH by lia. f_equal. lia.
Qed.

Lemma find_from_no_char (c : ascii) (s : string) (i : nat) :
  countChar c s = 0%nat -> find_from s (String c "") i = None.
Proof.
  revert i. induction s as [|x s IH]; intros i H; [reflexivity|].
  cbn [countChar] in H. destruct (Ascii.eqb_spec c x) as [Hx|Hx]; [lia|].
  simpl. destruct (ascii_dec c x); [congruence|]. apply IH. lia.
Qed.

Lemma find_from_bound (s pat : string) (i j : nat) :
  find_from s pat i = Some j -> (j <= i + String.length s)%nat.
Proof.
  revert i. induction s as [|c s IH]; intros i H; cbn [find_from] in H.
  - destruct (String.prefix pat ""); [injection H as <-; simpl; lia|discriminate].
  - destruct (String.prefix pat (String c s)); [injection H as <-; simpl; lia|].
    apply IH in H. simpl. lia.
Qed.

(** Messages that [onMessage] throws away. *)
(** [CMSClient::onMessage] leaves the connector unchanged when the message is not a map message, its TEXT is missing or differs from STATE, or one of NAME, SEVERITY and STATUS is missing. *)
Theorem onMessage_ignored (now : Z) (message : CMSMessage) (asc : AlarmServerConnector) :
  message = OtherMessage
  \/ (exists items, message = MapMessage items
       /\ (items !! "TEXT" = None
           \/ (exists text, items !! "TEXT" = Some text /\ text <> "STATE")
           \/ items !! "NAME" = None \/ items !! "SEVERITY" = None
           \/ items !! "STATUS" = None)) ->
  onMessage now message asc = Ok asc.
Proof.
  intros [->|[items [-> Hitems]]]; [reflexivity|]. unfold onMessage.
  destruct (items !! "TEXT") as [text|] eqn:Ht; [|reflexivity].
  destruct (String.eqb_spec text "STATE") as [->|Hne]; [|reflexivity]. simpl.
  destruct Hitems as [H|[[t [H1 H2]]|[H|[H|H]]]].
  - congruence.
  - congruence.
  - rewrite H. reflexivity.
  - rewrite H. destruct (items !! "NAME"); reflexivity.
  - rewrite H. destruct (items !! "NAME"), (items !! "SEVERITY"); reflexivity.
Qed.

Lemma find_from_prefix (s pat : string) (i : nat) :
  String.prefix pat s = true -> find_from s pat i = Some i.
Proof.
  intros H. destruct s as [|c s'].
  - change (find_from "" pat i) with (if String.prefix pat "" then Some i else None).
    rewrite H. reflexivity.
  - change (find_from (String c s') pat i)
      with (if String.prefix pat (String c s') then Some i else find_from s' pat (S i)).
    rewrite H. reflexivity.
Qed.

(** A STATE message whose NAME starts with [epics://] is reported to [notifyStatusChange] under the name without this prefix. *)
Theorem onMessage_strips_prefix (now : Z) (items : gmap string string)
  (asc : AlarmServerConnector) (pv sev st : string) :
  items !! "TEXT" = Some "STATE" ->
  items !! "NAME" = Some ("epics://" ++ pv) ->
  items !! "SEVERITY" = Some sev ->
  items !! "STATUS" = Some st ->
  onMessage now (MapMessage items) asc
    = notifyStatusChange asc (newAlarmStatusEntry pv sev st now).
Proof.
  intros Ht Hn Hs Hst.
  assert (Hf : string_find ("epics://" ++ pv) "epics://" = 0%Z).
  { unfold string_find. rewrite find_from_prefix by apply prefix_app. reflexivity. }
  assert (Hr : string_replace ("epics://" ++ pv) 0 8 "" = Ok pv).
  { unfold string_replace. rewrite string_length_app.
    change (String.length "epics://") with 8%nat.
    replace (Z.ltb (Z.of_nat (8 + String.length pv)) 0) with false
      by (symmetry; apply Z.ltb_ge; lia).
    replace (Nat.min (Z.to_nat 8) (8 + String.length pv - Z.to_nat 0)) with 8%nat by lia.
    change (Z.to_nat 0 + 8)%nat with (String.length "epics://" + 0)%nat.
    rewrite substring_app_skip.
    replace (8 + String.length pv - (String.length "epics://" + 0))%nat
      with (String.length pv) by (simpl; lia).
    rewrite substring_all. reflexivity. }
  unfold onMessage. rewrite Ht, Hn, Hs, Hst. cbn [negb String.eqb].
  change (String.eqb "STATE" "STATE") with true. cbn [negb].
  rewrite Hf, Hr. reflexivity.
Qed.

(** A STATE message whose NAME does not contain [epics://] makes [std::string::replace] throw [std::out_of_range] ([find] returns [npos]). *)
Theorem onMessage_no_prefix_throws (now : Z) (items : gmap string string)
  (asc : AlarmServerConnector) (rawname sev st : string) :
  items !! "TEXT" = Some "STATE" ->
  items !! "NAME" = Some rawname ->
  items !! "SEVERITY" = Some sev ->
  items !! "STATUS" = Some st ->
  (forall a b, rawname <> a ++ "epics://" ++ b) ->
  (Z.of_nat (String.length rawname) < npos)%Z ->
  onMessage now (MapMessage items) asc = Throw out_of_range.
Proof.
  intros Ht Hn Hs Hst Hno Hlen.
  unfold onMessage. rewrite Ht, Hn, Hs, Hst.
  change (String.eqb "STATE" "STATE") with true. cbn [negb].
  unfold string_find. rewrite find_from_absent by exact Hno.
  unfold string_replace. rewrite (proj2 (Z.ltb_lt _ _) Hlen). reflexivity.
Qed.

(** [AlarmConfiguration::CreateConfigFileLocation] never throws: [find] returns a position within the string or [npos], and [npos] is tested before [replace]. *)
Theorem CreateConfigFileLocation_no_throw (CONFIGFILELOCATION : string)
  (envvar home : option string) :
  exists path, CreateConfigFileLocation CONFIGFILELOCATION envvar home = Ok path.
Proof.
  destruct envvar as [e|]; [eexists; reflexivity|].
  destruct home as [h|]; [|eexists; reflexivity]. simpl.
  unfold string_find. destruct (find_from CONFIGFILELOCATION "~" 0) as [j|] eqn:Hf.
  - apply find_from_bound in Hf.
    destruct (negb (Z.eqb (Z.of_nat j) npos)); [|eexists; reflexivity].
    unfold string_replace.
    replace (Z.ltb (Z.of_nat (String.length CONFIGFILELOCATION)) (Z.of_nat j)) with false
      by (symmetry; apply Z.ltb_ge; lia).
    eexists; reflexivity.
  - rewrite Z.eqb_refl. eexists; reflexivity.
Qed.

(** The location of the configuration file: the environment variable when it is set; otherwise the compiled-in location, with its first [~] replaced by HOME when HOME is set. *)
Theorem CreateConfigFileLocation_value (CONFIGFILELOCATION : string) :
  (Z.of_nat (String.length CONFIGFILELOCATION) < npos)%Z ->
  (forall e home, CreateConfigFileLocation CONFIGFILELOCATION (Some e) home = Ok e)
  /\ CreateConfigFileLocation CONFIGFILELOCATION None None = Ok CONFIGFILELOCATION
  /\ (forall h, countChar "~"%char CONFIGFILELOCATION = 0%nat ->
        CreateConfigFileLocation CONFIGFILELOCATION None (Some h) = Ok CONFIGFILELOCATION)
  /\ (forall h a b, CONFIGFILELOCATION = a ++ String "~"%char b ->
        countChar "~"%char a = 0%nat ->
        CreateConfigFileLocation CONFIGFILELOCATION None (Some h) = Ok (a ++ h ++ b)).
Proof.
  intros Hlen. split; [reflexivity|]. split; [reflexivity|]. split.
  - intros h H0. simpl. unfold string_find. rewrite find_from_no_char by exact H0.
    rewrite Z.eqb_refl. reflexivity.
  - intros h a b -> Ha. simpl. unfold string_find.
    rewrite find_from_char by exact Ha. simpl (0 + _)%nat.
    rewrite string_length_app in Hlen. simpl in Hlen.
    replace (Z.eqb (Z.of_nat (String.length a)) npos) with false
      by (symmetry; apply Z.eqb_neq; lia).
    unfold string_replace. rewrite string_length_app. simpl (String.length (String _ b)).
    replace (Z.ltb (Z.of_nat (String.length a + S (String.length b))) (Z.of_nat (String.length a)))
      with false by (symmetry; apply Z.ltb_ge; lia).
    rewrite Nat2Z.id, substring_app_prefix.
    replace (Nat.min (Z.to_nat 1) (String.length a + S (String.length b) - String.length a))
      with 1%nat by lia.
    rewrite substring_app_skip.
    replace (String.length a + S (String.length b) - (String.length a + 1))%nat
      with (String.length b) by lia.
    simpl. rewrite substring_all. reflexivity.
Qed.

Lemma writeLoop_retries (fd : Z) (bytes : list Byte.byte)
  (rs : list (Z * bool)) (r : Z) (eg : bool) (rest : list (Z * bool)) :
  Forall (fun a => (Z.ltb a.1 0 && a.2)%bool = true) rs ->
  (Z.ltb r 0 && eg)%bool = false ->
  writeLoop fd bytes (rs ++ (r, eg) :: rest)
    = (repeat (SysWrite fd bytes) (S (length rs)), Some r).
Proof.
  intros Hrs Hr. induction Hrs as [|[r' eg'] rs' Ha Hrs' IH].
  - simpl. rewrite Hr. reflexivity.
  - simpl in Ha |- *. rewrite Ha, IH. reflexivity.
Qed.

Lemma switchInternal_close_fd (os : SerialOS) (b : bool) (fl : FlashLight) (c : Z) :
  SysClose c ∈ (switchInternal os b fl).1.2 -> c = os.(os_open).
Proof.
  unfold switchInternal, openSerialInterface.
  destruct (Z.ltb (os_open os) 0).
  - simpl. intros H. apply list_elem_of_singleton in H. discriminate.
  - cbn [fst snd]. destruct (configureSerialInterface os _).
    + simpl. intros H. apply list_elem_of_singleton in H. discriminate.
    + unfold writeSerialInteface. cbn [fdOpen negb fd].
      destruct (writeLoop (os_open os) _ (os_write os)) as [log r] eqn:Hw.
      assert (Hlog : forall c', SysClose c' ∉ log).
      { intros c'. revert log r Hw. induction (os_write os) as [|[x e] ans IH];
          intros log r Hw; simpl in Hw.
        - injection Hw as <- _. apply not_elem_of_nil.
        - destruct (Z.ltb x 0 && e)%bool.
          + destruct (writeLoop _ _ ans) as [log' r'] eqn:Hw'.
            injection Hw as <- _. rewrite elem_of_cons. intros [H|H]; [discriminate|].
            exact (IH _ _ eq_refl H).
          + injection Hw as <- _. rewrite list_elem_of_singleton. discriminate. }
      destruct r as [bw|].
      * assert (Hend : forall c', SysClose c' ∈ ([SysOpen (deviceNode fl)] ++ log ++ [SysClose (os_open os)])%list -> c' = os_open os).
        { intros c' H. apply elem_of_app in H as [H|H].
          - apply list_elem_of_singleton in H. discriminate.
          - apply elem_of_app in H as [H|H].
            + exact (False_ind _ (Hlog _ H)).
            + apply list_elem_of_singleton in H. injection H as ->. reflexivity. }
        destruct (Z.ltb bw 0); [|destruct (Z.ltb bw _)]; exact (Hend c).
      * cbn [fst snd]. intros H. rewrite elem_of_app in H.
        destruct H as [H|H]; [apply list_elem_of_singleton in H; discriminate|].
        exact (False_ind _ (Hlog _ H)).
Qed.

(** Once the serial interface is open and configured, [switchInternal] writes the command (again after each EAGAIN failure) and closes the interface, whatever the last [write()] returned: a failed or short write is swallowed by the [catch] of [writeSerialInteface]. *)
Theorem switchInternal_write_result_ignored (os : SerialOS) (b : bool) (fl : FlashLight)
  (rs : list (Z * bool)) (r : Z) (eg : bool) (rest : list (Z * bool)) :
  (0 <= os.(os_open))%Z -> (0 <= os.(os_tcgetattr))%Z ->
  (0 <= os.(os_cfsetispeed))%Z -> (0 <= os.(os_cfsetospeed))%Z ->
  (0 <= os.(os_tcsetattr))%Z ->
  os.(os_write) = (rs ++ (r, eg) :: rest)%list ->
  Forall (fun a => (Z.ltb a.1 0 && a.2)%bool = true) rs ->
  (Z.ltb r 0 && eg)%bool = false ->
  switchInternal os b fl
    = (mkFlashLight fl.(deviceNode) (-1) false,
       ([SysOpen fl.(deviceNode)]
        ++ repeat (SysWrite os.(os_open) (createCommand b)) (S (length rs))
        ++ [SysClose os.(os_open)])%list,
       Returned).
Proof.
  intros Ho Hg Hi Hso Hs Hw Hrs Hr.
  unfold switchInternal, openSerialInterface.
  rewrite (proj2 (Z.ltb_ge _ _) Ho). cbn [fst snd].
  unfold configureSerialInterface. cbn [fdOpen negb].
  rewrite (proj2 (Z.ltb_ge _ _) Hg), (proj2 (Z.ltb_ge _ _) Hi),
          (proj2 (Z.ltb_ge _ _) Hso), (proj2 (Z.ltb_ge _ _) Hs).
  unfold writeSerialInteface. cbn [fdOpen negb fd].
  replace (take (length (createCommand b)) (createCommand b ++ [Byte.x00])%list)
    with (createCommand b) by (destruct b; reflexivity).
  rewrite Hw, writeLoop_retries by assumption.
  destruct (Z.ltb r 0); [|destruct (Z.ltb r _)]; reflexivity.
Qed.

(** When [open()] or one of the configuration calls fails, [switchInternal] raises [std::runtime_error] before [closeSerialInterface]; after a configuration failure the descriptor stays open, and a later switch that opens another descriptor never closes it. *)
Theorem switchInternal_setup_failure_skips_close (os : SerialOS) (b : bool) (fl : FlashLight) :
  ((os.(os_open) < 0)%Z \/
   ((0 <= os.(os_open))%Z /\
    ((os.(os_tcgetattr) < 0)%Z \/ (os.(os_cfsetispeed) < 0)%Z \/
     (os.(os_cfsetospeed) < 0)%Z \/ (os.(os_tcsetattr) < 0)%Z))) ->
  switchInternal os b fl
    = (mkFlashLight fl.(deviceNode) os.(os_open)
         (if Z.ltb os.(os_open) 0 then fl.(fdOpen) else true),
       [SysOpen fl.(deviceNode)], Raised serial_runtime_error)
  /\ (forall os2 b2, os2.(os_open) <> os.(os_open) ->
        SysClose os.(os_open) ∉ (switchInternal os2 b2 (switchInternal os b fl).1.1).1.2).
Proof.
  intros H. split.
  - unfold switchInternal, openSerialInterface.
    destruct H as [H|[H0 H]].
    + rewrite (proj2 (Z.ltb_lt _ _) H). reflexivity.
    + rewrite (proj2 (Z.ltb_ge _ _) H0). cbn [fst snd].
      unfold configureSerialInterface. cbn [fdOpen negb].
      destruct H as [H|[H|[H|H]]].
      * rewrite (proj2 (Z.ltb_lt _ _) H). reflexivity.
      * destruct (Z.ltb (os_tcgetattr os) 0); [reflexivity|].
        rewrite (proj2 (Z.ltb_lt _ _) H). reflexivity.
      * destruct (Z.ltb (os_tcgetattr os) 0); [reflexivity|].
        destruct (Z.ltb (os_cfsetispeed os) 0); [reflexivity|].
        rewrite (proj2 (Z.ltb_lt _ _) H). reflexivity.
      * destruct (Z.ltb (os_tcgetattr os) 0); [reflexivity|].
        destruct (Z.ltb (os_cfsetispeed os) 0); [reflexivity|].
        destruct (Z.ltb (os_cfsetospeed os) 0); [reflexivity|].
        rewrite (proj2 (Z.ltb_lt _ _) H). reflexivity.
  - intros os2 b2 Hne Hin. apply switchInternal_close_fd in Hin. congruence.
Qed.

(** [switchInternal] never raises [std::logic_error]: configuring and writing are only reached on an open interface. *)
Theorem switchInternal_no_logic_error (os : SerialOS) (b : bool) (fl : FlashLight) :
  (switchInternal os b fl).2 <> Raised serial_logic_error.
Proof.
  unfold switchInternal, openSerialInterface.
  destruct (Z.ltb (os_open os) 0); [discriminate|]. cbn [fst snd].
  unfold configureSerialInterface. cbn [fdOpen negb].
  destruct (Z.ltb (os_tcgetattr os) 0); [discriminate|].
  destruct (Z.ltb (os_cfsetispeed os) 0); [discriminate|].
  destruct (Z.ltb (os_cfsetospeed os) 0); [discriminate|].
  destruct (Z.ltb (os_tcsetattr os) 0); [discriminate|].
  unfold writeSerialInteface. cbn [fdOpen negb fd].
  destruct (writeLoop _ _ _) as [log [bw|]].
  - destruct (Z.ltb bw 0); [|destruct (Z.ltb bw _)]; discriminate.
  - discriminate.
Qed.

Lemma testbit_tcflag_high (c n : Z) :
  (0 <= c < 2 ^ 32)%Z -> (32 <= n)%Z -> Z.testbit c n = false.
Proof.
  intros Hc Hn. destruct (Z.eq_dec c 0%Z) as [->|Hc0]; [apply Z.testbit_0_l|].
  apply Z.bits_above_log2; [lia|].
  assert (Z.log2 c < 32)%Z by (apply Z.log2_lt_pow2; lia). lia.
Qed.

Lemma Z_lt_32_cases (n : Z) : (0 <= n < 32)%Z ->
  List.In n (List.map Z.of_nat (List.seq 0 32)).
Proof.
  intros H. apply List.in_map_iff. exists (Z.to_nat n).
  split; [lia|]. apply List.in_seq. lia.
Qed.

Ltac tcflag_bits :=
  apply Z.bits_inj'; intros n Hn;
  unfold configureTermios, tcflag_not, IGNPAR, IXON, IXOFF, CSIZE, CS8, CSTOPB,
    CREAD, PARENB, PARODD, CLOCAL, CRTSCTS; cbn [c_cflag c_iflag];
  repeat rewrite ?Z.land_spec, ?Z.lor_spec, ?Z.lxor_spec;
  destruct (Z.lt_ge_cases n 32) as [Hlt|Hge];
  [ pose proof (Z_lt_32_cases n ltac:(lia)) as Hcases; cbn in Hcases;
    repeat destruct Hcases as [<- | Hcases]; try contradiction;
    repeat match goal with
           | |- context [Z.testbit ?x ?k] =>
               is_var x; destruct (Z.testbit x k)
           end; reflexivity
  | repeat match goal with
           | |- context [Z.testbit ?c n] =>
               rewrite (testbit_tcflag_high c n) by lia
           end;
    repeat match goal with
           | |- context [Z.testbit ?x n] => destruct (Z.testbit x n)
           end; reflexivity ].

(** The terminal settings written by [configureSerialInterface]: 8 data bits, no parity, one stop bit, no hardware or software handshake, receiver on and modem lines ignored, parity errors ignored, non-blocking reads; all other flag bits are kept. *)
Theorem configureTermios_serial_settings (t : termios) :
  let t' := configureTermios t in
  Z.land t'.(c_cflag) CSIZE = CS8 /\
  Z.land t'.(c_cflag) (Z.lor PARENB (Z.lor PARODD (Z.lor CSTOPB CRTSCTS))) = 0%Z /\
  Z.land t'.(c_cflag) (Z.lor CREAD CLOCAL) = Z.lor CREAD CLOCAL /\
  Z.land t'.(c_iflag) (Z.lor IXON IXOFF) = 0%Z /\
  Z.land t'.(c_iflag) IGNPAR = IGNPAR /\
  t'.(c_vmin) = 0%Z /\ t'.(c_vtime) = 0%Z /\
  (let touched := Z.lor CSIZE (Z.lor PARENB (Z.lor PARODD (Z.lor CSTOPB
                    (Z.lor CRTSCTS (Z.lor CREAD CLOCAL))))) in
   Z.land t'.(c_cflag) (tcflag_not touched) = Z.land t.(c_cflag) (tcflag_not touched)) /\
  (let touched := Z.lor IXON (Z.lor IXOFF IGNPAR) in
   Z.land t'.(c_iflag) (tcflag_not touched) = Z.land t.(c_iflag) (tcflag_not touched)).
Proof.
  destruct t as [cf fi vm vt]. cbn zeta.
  split; [tcflag_bits|]. split; [tcflag_bits|]. split; [tcflag_bits|].
  split; [tcflag_bits|]. split; [tcflag_bits|].
  split; [reflexivity|]. split; [reflexivity|].
  split; tcflag_bits.
Qed.

(** Driven by any sequence of connector effects, the Beedo engine emits play and stop signals alternately, starting with the one that changes its current state, and [_go] ends flipped once per signal. *)
Theorem beedoDrive_alternates (effs : list Effect) (go : bool) :
  let '(go', sigs) := beedoDrive effs go in
  alternating (if go then signalStop else signalPlay) sigs = true
  /\ go' = xorb go (Nat.odd (length sigs)).
Proof.
  revert go. induction effs as [|ef effs IH]; intros go.
  - simpl. destruct go; split; reflexivity.
  - destruct ef; cbn [beedoDrive]; try exact (IH go).
    + unfold start_internal. destruct go.
      * specialize (IH true). destruct (beedoDrive effs true) as [g s]. exact IH.
      * specialize (IH true). destruct (beedoDrive effs true) as [g s].
        cbv beta iota in IH. destruct IH as [Ha Hg]. simpl. split; [exact Ha|].
        rewrite Nat.odd_succ, <- Nat.negb_odd, Hg. destruct (Nat.odd (length s)); reflexivity.
    + unfold stop_internal. destruct go; cbn [negb].
      * specialize (IH false). destruct (beedoDrive effs false) as [g s].
        cbv beta iota in IH. destruct IH as [Ha Hg]. simpl. split; [exact Ha|].
        rewrite Nat.odd_succ, <- Nat.negb_odd, Hg. destruct (Nat.odd (length s)); reflexivity.
      * specialize (IH false). destruct (beedoDrive effs false) as [g s]. exact IH.
Qed.



(** After one iteration of [observeAlarmStatus] with a connector, [_alarmActive] tells whether the connector has alarms; an icon that matched [getStatus] still matches it, and the icon changes only when [_alarmActive] does. *)
Theorem observeAlarmStatus_iteration_spec (w : DesktopAlarmWidget) (a : AlarmServerConnector) :
  w.(daw_asc) = Some a ->
  let w' := observeAlarmStatus_iteration w in
  w'.(daw_asc) = Some a
  /\ w'.(daw_activateBeedo) = w.(daw_activateBeedo)
  /\ w'.(daw_alarmActive) = negb (Nat.eqb (getNumberOfAlarms a) 0)
  /\ (w.(daw_icon) = getStatus w -> w'.(daw_icon) = getStatus w')
  /\ (w'.(daw_alarmActive) = w.(daw_alarmActive) -> w'.(daw_icon) = w.(daw_icon)).
Proof.
  intros Ha. destruct w as [ab asc act icon]. cbn in Ha. subst asc.
  unfold observeAlarmStatus_iteration, getStatus, changeTrayIcon, with_alarmActive, with_icon.
  cbn [daw_asc daw_alarmActive daw_icon daw_activateBeedo].
  destruct act, (Nat.eqb (getNumberOfAlarms a) 0); cbn; repeat split; intros H;
    try reflexivity; try exact H; try discriminate.
Qed.

Lemma observeAlarmStatus_iteration_stable (w : DesktopAlarmWidget) (a : AlarmServerConnector) :
  w.(daw_asc) = Some a -> w.(daw_alarmActive) = true ->
  Nat.eqb (getNumberOfAlarms a) 0 = false ->
  observeAlarmStatus_iteration w = w.
Proof.
  intros Ha Hact Hn. unfold observeAlarmStatus_iteration. rewrite Ha, Hact, Hn. cbn. rewrite Hact. reflexivity.
Qed.

(** Disabling and re-enabling notifications while an alarm was shown keeps [_alarmActive] set, and the new connector's icon is [ActiveOK]; if an alarm arrives before the observer runs, the icon stays [ActiveOK] through every later iteration while [getStatus] says [ActiveAlarm]. *)
Theorem stale_tray_icon_after_reenable (w : DesktopAlarmWidget) (a : AlarmServerConnector)
  (st : AlarmStatusEntry) (n : nat) :
  w.(daw_asc) = Some a -> w.(daw_alarmActive) = true ->
  checkSeverityString st.(severity) = Ok false ->
  exists w3,
    (w1 <-- toggleNotifications w ;;
     w2 <-- toggleNotifications w1 ;;
     widgetStep (WConnector (Report st)) w2) = Ok w3
    /\ (exists a3, (Nat.iter n observeAlarmStatus_iteration w3).(daw_asc) = Some a3
                   /\ getNumberOfAlarms a3 = 1%nat)
    /\ getStatus (Nat.iter n observeAlarmStatus_iteration w3) = ActiveAlarm
    /\ (Nat.iter n observeAlarmStatus_iteration w3).(daw_icon) = ActiveOK.
Proof.
  intros Ha Hact Hsev.
  destruct w as [ab asc act icon]. cbn in Ha, Hact. subst asc act.
  set (a0 := mkAlarmServerConnector true ab ∅ noAlarmActive false).
  assert (Hn : exists a1, notifyStatusChange a0 st = Ok a1 /\ getNumberOfAlarms a1 = 1%nat).
  { unfold notifyStatusChange. rewrite Hsev. cbn [result_bind].
    eexists. split; [reflexivity|].
    unfold getNumberOfAlarms. cbn. rewrite lookup_empty. cbn.
    rewrite insert_empty, map_size_singleton. reflexivity. }
  destruct Hn as [a1 [Hn1 Hc1]].
  exists (mkDesktopAlarmWidget ab (Some a1) true ActiveOK).
  assert (Hw3 : (w1 <-- toggleNotifications (mkDesktopAlarmWidget ab (Some a) true icon) ;;
     w2 <-- toggleNotifications w1 ;;
     widgetStep (WConnector (Report st)) w2) = Ok (mkDesktopAlarmWidget ab (Some a1) true ActiveOK)).
  { cbn. fold a0. rewrite Hn1. reflexivity. }
  split; [exact Hw3|].
  assert (Hfix : forall k, Nat.iter k observeAlarmStatus_iteration
                   (mkDesktopAlarmWidget ab (Some a1) true ActiveOK)
                 = mkDesktopAlarmWidget ab (Some a1) true ActiveOK).
  { induction k as [|k IH]; [reflexivity|].
    rewrite Nat.iter_succ, IH. apply (observeAlarmStatus_iteration_stable _ a1); try reflexivity.
    rewrite Hc1. reflexivity. }
  rewrite Hfix. split; [exists a1; split; [reflexivity|exact Hc1]|].
  split; reflexivity.
Qed.

(** The watcher ([checkStatusMap]) and the flash-light loop never add or remove an alarm, and never change a PV name, severity, status or trigger time. *)
Theorem ticks_keep_alarms (cfg : AlarmConfiguration) (now : Z) (asc : AlarmServerConnector) :
  let key := fun e => (e.(pvname), e.(severity), e.(status), e.(triggertime)) in
  key <$> (fst (checkStatusMap cfg now asc)).(statusmap) = key <$> asc.(statusmap)
  /\ getNumberOfAlarms (fst (checkStatusMap cfg now asc)) = getNumberOfAlarms asc
  /\ (fst (operateFlashLight cfg now asc)).(statusmap) = asc.(statusmap).
Proof.
  intros key.
  assert (Hk : key <$> (fst (checkStatusMap cfg now asc)).(statusmap) = key <$> asc.(statusmap)).
  { apply map_eq. intros k. rewrite !lookup_fmap.
    destruct (checkStatusMap_fields cfg now asc) as (_ & _ & _ & _ & Hm).
    destruct (Hm k) as [E|[E|[E|E]]]; rewrite E; [reflexivity| | |];
      destruct (asc.(statusmap) !! k) as [e|]; try reflexivity; cbn [fmap option_fmap option_map];
      unfold desktopLoopBody, emailLoopBody, key;
      repeat (match goal with |- context [if ?c then _ else _] => destruct c end; cbn);
      reflexivity. }
  split; [exact Hk|]. split.
    + unfold getNumberOfAlarms. rewrite <- (map_size_fmap key), Hk, map_size_fmap. reflexivity.
    + apply (operateFlashLight_fields cfg now asc).
Qed.

(** A report whose severity can be classified is never refused; the number of alarms drops by one when a tracked PV is cleared, grows by one when an untracked PV is not cleared, and stays the same otherwise. *)
Theorem notifyStatusChange_alarm_count (asc : AlarmServerConnector) (st : AlarmStatusEntry)
  (cleared : bool) :
  checkSeverityString st.(severity) = Ok cleared ->
  exists a, notifyStatusChange asc st = Ok a
    /\ getNumberOfAlarms a =
         match asc.(statusmap) !! st.(pvname), cleared with
         | Some _, true => pred (getNumberOfAlarms asc)
         | None, false => S (getNumberOfAlarms asc)
         | _, _ => getNumberOfAlarms asc
         end.
Proof.
  intros Hb.
  assert (Hok : exists a, notifyStatusChange asc st = Ok a).
  { unfold notifyStatusChange. rewrite Hb. cbn.
    destruct cleared.
    - destruct (asc.(statusmap) !! st.(pvname)); eexists; reflexivity.
    - destruct (Z.eqb _ _); eexists; reflexivity. }
  destruct Hok as [a Ha]. exists a. split; [exact Ha|].
  destruct (notifyStatusChange_spec _ _ _ _ Hb Ha) as (_ & _ & _ & _ & Hm).
  unfold getNumberOfAlarms. rewrite Hm.
  destruct (asc.(statusmap) !! st.(pvname)) eqn:E; destruct cleared.
  - apply map_size_delete_Some. eexists; exact E.
  - apply map_size_insert_Some. eexists; exact E.
  - apply map_size_delete_None. exact E.
  - apply map_size_insert_None. exact E.
Qed.

Lemma desktopAlarmText_lines_witness :
  splitLines (desktopAlarmText [newAlarmStatusEntry "pv1" "MAJOR" "HIHI" 0;
                                newAlarmStatusEntry "pv2" "MINOR" "LOW" 1])
  = ["Alarm on this/these PV(s):"; "pv1"; "pv2"; ""].
Proof. apply desktopAlarmText_lines. repeat constructor. Defined.

Lemma composeMessageText_lines_witness :
  splitLines (composeMessageText [newAlarmStatusEntry "pv1" "MAJOR" "HIHI" 0])
  = ["Hello,"; ""; "the following PV(s) triggered an alarm:"; ""; "pv1"; "";
     "Please remember to acknowledge the alarms if you go solving the problem.";
     ""; ""; "Your Alarm Notification Service"; ""].
Proof. apply composeMessageText_lines. repeat constructor. Defined.

Lemma onMessage_ignored_witness :
  onMessage 0 (MapMessage (<["TEXT" := "ACK"]> ∅)) freshConnector = Ok freshConnector.
Proof.
  apply onMessage_ignored. right. exists (<["TEXT" := "ACK"]> ∅). split; [reflexivity|].
  right. left. exists "ACK". split; [reflexivity|discriminate].
Defined.

Lemma onMessage_strips_prefix_witness :
  onMessage 5 (MapMessage (<["TEXT" := "STATE"]> (<["NAME" := "epics://pv1"]>
                (<["SEVERITY" := "MAJOR"]> (<["STATUS" := "HIHI"]> ∅))))) freshConnector
  = notifyStatusChange freshConnector (newAlarmStatusEntry "pv1" "MAJOR" "HIHI" 5).
Proof. apply onMessage_strips_prefix; reflexivity. Defined.

Lemma onMessage_no_prefix_throws_witness :
  onMessage 5 (MapMessage (<["TEXT" := "STATE"]> (<["NAME" := "pv1"]>
                (<["SEVERITY" := "MAJOR"]> (<["STATUS" := "HIHI"]> ∅))))) freshConnector
  = Throw out_of_range.
Proof.
  apply (onMessage_no_prefix_throws 5 _ freshConnector "pv1" "MAJOR" "HIHI");
    try reflexivity.
  intros a b H. apply (f_equal String.length) in H.
  rewrite !string_length_app in H. simpl in H. lia.
Defined.

Lemma CreateConfigFileLocation_value_witness :
  CreateConfigFileLocation "~/.alarmnotifications" None (Some "/home/user")
  = Ok "/home/user/.alarmnotifications".
Proof.
  destruct (CreateConfigFileLocation_value "~/.alarmnotifications" ltac:(reflexivity))
    as (_ & _ & _ & H).
  exact (H "/home/user" "" "/.alarmnotifications" eq_refl eq_refl).
Defined.

Lemma switchInternal_write_result_ignored_witness :
  switchInternal (mkSerialOS 3 0 0 0 0 [((-1)%Z, true); (2%Z, false)]) true
    (mkFlashLight "/dev/ttyUSB0" (-1) false)
  = (mkFlashLight "/dev/ttyUSB0" (-1) false,
     [SysOpen "/dev/ttyUSB0"; SysWrite 3 (createCommand true);
      SysWrite 3 (createCommand true); SysClose 3],
     Returned).
Proof.
  apply (switchInternal_write_result_ignored (mkSerialOS 3 0 0 0 0 [((-1)%Z, true); (2%Z, false)])
           true (mkFlashLight "/dev/ttyUSB0" (-1) false) [((-1)%Z, true)] 2 false []);
    try (simpl; lia); try reflexivity.
  repeat constructor.
Defined.

Lemma switchInternal_setup_failure_skips_close_witness :
  switchInternal (mkSerialOS 3 (-1) 0 0 0 []) true (mkFlashLight "/dev/ttyUSB0" (-1) false)
  = (mkFlashLight "/dev/ttyUSB0" 3 true, [SysOpen "/dev/ttyUSB0"], Raised serial_runtime_error)
  /\ SysClose 3 ∉ (switchInternal (mkSerialOS 4 0 0 0 0 [(3%Z, false)]) true
                    (mkFlashLight "/dev/ttyUSB0" 3 true)).1.2.
Proof.
  destruct (switchInternal_setup_failure_skips_close (mkSerialOS 3 (-1) 0 0 0 []) true
              (mkFlashLight "/dev/ttyUSB0" (-1) false)) as [H1 H2].
  - right. simpl. lia.
  - split; [exact H1|].
    exact (H2 (mkSerialOS 4 0 0 0 0 [(3%Z, false)]) true ltac:(simpl; lia)).
Defined.

Lemma observeAlarmStatus_iteration_spec_witness :
  (observeAlarmStatus_iteration
     (mkDesktopAlarmWidget false (Some freshConnector) true ActiveAlarm)).(daw_alarmActive)
  = false
  /\ (observeAlarmStatus_iteration
        (mkDesktopAlarmWidget false (Some freshConnector) true ActiveAlarm)).(daw_icon)
     = ActiveOK.
Proof.
  destruct (observeAlarmStatus_iteration_spec
              (mkDesktopAlarmWidget false (Some freshConnector) true ActiveAlarm)
              freshConnector eq_refl) as (_ & _ & H1 & H2 & _).
  split; [exact H1|]. exact (H2 eq_refl).
Defined.

Lemma stale_tray_icon_after_reenable_witness :
  exists w3,
    (w1 <-- toggleNotifications (mkDesktopAlarmWidget false (Some freshConnector) true ActiveAlarm) ;;
     w2 <-- toggleNotifications w1 ;;
     widgetStep (WConnector (Report (newAlarmStatusEntry "pv1" "MAJOR" "HIHI" 0))) w2) = Ok w3
    /\ getStatus (Nat.iter 10 observeAlarmStatus_iteration w3) = ActiveAlarm
    /\ (Nat.iter 10 observeAlarmStatus_iteration w3).(daw_icon) = ActiveOK.
Proof.
  destruct (stale_tray_icon_after_reenable
              (mkDesktopAlarmWidget false (Some freshConnector) true ActiveAlarm) freshConnector
              (newAlarmStatusEntry "pv1" "MAJOR" "HIHI" 0) 10 eq_refl eq_refl ltac:(reflexivity))
    as (w3 & H1 & _ & H2 & H3).
  exists w3. split; [exact H1|]. split; [exact H2|exact H3].
Defined.

Lemma notifyStatusChange_alarm_count_witness :
  exists a, notifyStatusChange freshConnector (newAlarmStatusEntry "pv1" "MAJOR" "HIHI" 0) = Ok a
    /\ getNumberOfAlarms a = 1%nat.
Proof.
  destruct (notifyStatusChange_alarm_count freshConnector
              (newAlarmStatusEntry "pv1" "MAJOR" "HIHI" 0) false ltac:(reflexivity))
    as (a & H1 & H2).
  exists a. split; [exact H1|]. rewrite H2. reflexivity.
Defined.
